(** * Prodigy: the components of [frontend/src/App.js]

    A shallow embedding of the [KanbanBoard] component, of the API helper it
    calls and of the part of the query library's contract the component
    relies on ([useQuery], [useMutation], [invalidateQueries]); then of the
    Pomodoro timer, of the session kept by [AuthProvider], and of the forms
    of the work and study pages.

    JavaScript objects with string-valued properties are finite maps from
    property names to strings; the query cache is a finite map from query
    keys to query states; the asynchronous parts (the network write, its
    settlement, a refetch, the firing of an interval) are separate steps of
    an explicit state, so that the order of effects can be read off a
    trace.

    App.js calls [apiCall] and never binds that name. The board's drag
    handler is modelled both ways: as the file is written, where the call
    throws before a request is made, and with the name bound to the
    function [createApiCall(user)] returns, which is the request the code
    sets out to make. *)

From Stdlib Require Import Ascii.
From stdpp Require Import gmap strings pretty list fin_maps.

(** ** Data *)

(** A property bag: a JS object whose property values are strings. *)
Abbreviation JsObject := (gmap string string).

(** A task as the board reads it: [task.id], [task.title],
    [task.description] (optional) and [task.status]. *)
Record Task := {
  task_id : string;
  task_title : string;
  task_description : option string;
  task_status : string
}.

Global Instance Task_eq_dec : EqDecision Task.
Proof. solve_decision. Defined.

(** The signed-in user of [AuthProvider]; only [token] matters below. *)
Record User := {
  uid : string;
  email : string;
  displayName : string;
  token : string
}.

(** A query key is an array of strings, as in [['tasks', projectId]]. *)
Abbreviation QueryKey := (list string).

(** The second argument of the API helper, [options]. *)
Record Options := {
  opt_method : option string;
  opt_data : option JsObject;
  opt_headers : option JsObject
}.

(** The object handed to [axios]. *)
Record AxiosConfig := {
  url : string;
  method : string;
  data : option JsObject;
  headers : JsObject
}.

Global Instance AxiosConfig_eq_dec : EqDecision AxiosConfig.
Proof. solve_decision. Defined.

(** ** The API helper *)

Section Api.
(** [process.env.REACT_APP_BACKEND_URL] *)
Variable BACKEND_URL : string.
(** the [user] of the auth context, [null] when signed out *)
Variable user : option User.

Definition API : string := BACKEND_URL +:+ "/api".

(** [...(user?.token && { Authorization: `Bearer ${user.token}` })]:
    spreading a falsy value (no user, empty token) adds nothing. *)
Definition authHeader : JsObject :=
  match user with
  | Some u => if decide (token u = "") then ∅
              else {[ "Authorization" := "Bearer " +:+ token u ]}
  | None => ∅
  end.

(** [createApiCall(user)(endpoint, options)] up to the [axios] call:
    [{ url, method: 'GET', ...options, headers: { 'Content-Type': ..,
    ...auth, ...options.headers } }]. Later properties win, which is the
    left-biased union read from right to left. *)
Definition createApiCall (endpoint : string) (options : Options)
  : AxiosConfig :=
  {| url := API +:+ endpoint;
     method := default "GET" (opt_method options);
     data := opt_data options;
     headers := default ∅ (opt_headers options)
                ∪ authHeader
                ∪ {[ "Content-Type" := "application/json" ]} |}.

(** The components call [apiCall(endpoint, options)], a name App.js never
    binds: as the file is written the call throws a ReferenceError (see
    [onDragEnd_as_written] below). The only function of that shape in the
    file is the one [createApiCall(user)] returns; [apiCall] here is the
    name bound to it, and what goes through it describes the components
    with that binding in place. *)
Definition apiCall : string → Options → AxiosConfig := createApiCall.
End Api.

(** ** The query library, as the component uses it

    [useQuery], [useMutation] and [queryClient.invalidateQueries] come from
    the query library. What follows is the part of their contract that
    App.js relies on: a cache of query states addressed by key, a cache of
    mutations, and the order in which a mutation's callbacks run. *)

(** How a network call ends. *)
Inductive Outcome :=
| Resolved
| Rejected (err : string).

(** What the outside can observe, oldest first. *)
Inductive Event :=
| EvRequest (cfg : AxiosConfig)               (* [axios(config)] was called *)
| EvSettled (mutationId : nat) (out : Outcome) (* a mutation ended *)
| EvInvalidate (filter : QueryKey).            (* [invalidateQueries] ran *)

Global Instance Outcome_eq_dec : EqDecision Outcome.
Proof. solve_decision. Defined.
Global Instance Event_eq_dec : EqDecision Event.
Proof. solve_decision. Defined.

(** The state of one query: [data] is [undefined] until a fetch resolved. *)
Record QueryState := {
  q_data : option (list Task);
  isInvalidated : bool
}.

Inductive MutationStatus :=
| Idle
| Pending
| Success
| Error (err : string).

(** One entry of the mutation cache. *)
Record Mutation := {
  variables : JsObject;
  status : MutationStatus
}.

Record World := {
  queries : gmap QueryKey QueryState;
  mutations : gmap nat Mutation;
  nextId : nat;
  trace : list Event
}.

Definition set_queries (f : gmap QueryKey QueryState → gmap QueryKey QueryState)
  (w : World) : World :=
  {| queries := f (queries w); mutations := mutations w;
     nextId := nextId w; trace := trace w |}.

Definition set_mutations (f : gmap nat Mutation → gmap nat Mutation)
  (w : World) : World :=
  {| queries := queries w; mutations := f (mutations w);
     nextId := nextId w; trace := trace w |}.

Definition emit (e : Event) (w : World) : World :=
  {| queries := queries w; mutations := mutations w;
     nextId := nextId w; trace := trace w ++ [e] |}.

Definition fresh_id (w : World) : World :=
  {| queries := queries w; mutations := mutations w;
     nextId := S (nextId w); trace := trace w |}.

(** The options object of [useMutation]; a callback that is not given is
    [None]. *)
Record MutationOptions := {
  mutationFn : JsObject → AxiosConfig;
  onMutate : option (JsObject → World → World);
  onSuccess : option (JsObject → World → World);
  onError : option (string → JsObject → World → World);
  onSettled : option (JsObject → World → World)
}.

Definition run_callback (cb : option (JsObject → World → World))
  (vars : JsObject) (w : World) : World :=
  match cb with
  | Some f => f vars w
  | None => w
  end.

(** [data] of [useQuery({ queryKey })]: what the cache holds for the key. *)
Definition useQuery_data (key : QueryKey) (w : World) : option (list Task) :=
  queries w !! key ≫= q_data.

(** [queryClient.invalidateQueries({ queryKey: filter })]: every query whose
    key starts with [filter] is marked invalidated. The refetch of a mounted
    invalidated query is a step of its own, [fetchQuery]. *)
Definition mark_invalidated (q : QueryState) : QueryState :=
  {| q_data := q_data q; isInvalidated := true |}.

Definition invalidateQueries (filter : QueryKey) (w : World) : World :=
  emit (EvInvalidate filter)
    (set_queries
       (map_imap (λ k q,
          Some (if bool_decide (filter `prefix_of` k)
                then mark_invalidated q else q)))
       w).

(** [mutation.mutate(vars)]: the mutation enters the cache as pending,
    [onMutate] runs, then [mutationFn] issues the write. *)
Definition mutate (o : MutationOptions) (vars : JsObject) (w : World) : World :=
  let w1 := set_mutations
              <[nextId w := {| variables := vars; status := Pending |}]> w in
  let w2 := run_callback (onMutate o) vars (fresh_id w1) in
  emit (EvRequest (mutationFn o vars)) w2.

(** The write of mutation [id] ends with [out]: [onSuccess] or [onError]
    runs, then [onSettled], then the mutation's status is set. A mutation
    that is not pending cannot settle. The library sets the status once
    the promise a callback returns has settled; the status is set here as
    soon as the callback has run, so between a successful write and the end
    of the refetch [onSuccess] started this status is ahead of the
    library's. *)
Definition settle (o : MutationOptions) (id : nat) (out : Outcome) (w : World)
  : World :=
  match mutations w !! id with
  | Some {| variables := vars; status := Pending |} =>
      let w1 := emit (EvSettled id out) w in
      let w2 := match out with
                | Resolved => run_callback (onSuccess o) vars w1
                | Rejected err =>
                    match onError o with
                    | Some f => f err vars w1
                    | None => w1
                    end
                end in
      let w3 := run_callback (onSettled o) vars w2 in
      set_mutations
        <[id := {| variables := vars;
                   status := match out with
                             | Resolved => Success
                             | Rejected err => Error err
                             end |}]> w3
  | _ => w
  end.

(** A fetch for [key] is issued with the request [cfg] of its [queryFn]. *)
Definition fetchQuery (cfg : AxiosConfig) (w : World) : World :=
  emit (EvRequest cfg) w.

(** A fetch for [key] resolved with [ts]: the data is replaced. *)
Definition queryResolved (key : QueryKey) (ts : list Task) (w : World) : World :=
  set_queries <[key := {| q_data := Some ts; isInvalidated := false |}]> w.

(** What the hook result shows: the status of the latest mutation, [Idle]
    before the first [mutate]. *)
Definition useMutation_status (w : World) : MutationStatus :=
  match nextId w with
  | O => Idle
  | S n => default Idle (status <$> mutations w !! n)
  end.

(** ** The board *)

(** What the drag-and-drop library hands to [onDragEnd]. [destination] is
    [null] when the card is released outside every column. *)
Record Destination := {
  droppableId : string;
  index : nat
}.

Record DropResult := {
  draggableId : string;
  destination : option Destination
}.

(** One entry of [columns]. *)
Record Column := {
  title : string;
  color : string
}.

Section KanbanBoard.
Variable BACKEND_URL : string.
Variable user : option User.
(** the component's only prop *)
Variable projectId : string.

(** [queryKey: ['tasks', projectId]] *)
Definition tasksKey : QueryKey := ["tasks"; projectId].

(** [queryFn: () => apiCall(`/projects/${projectId}/tasks`)] *)
Definition tasksQueryFn : AxiosConfig :=
  apiCall BACKEND_URL user ("/projects/" +:+ projectId +:+ "/tasks")
    {| opt_method := None; opt_data := None; opt_headers := None |}.

(** [const { data: tasks = [] } = useQuery(...)]: the default applies
    when [data] is [undefined]. *)
Definition tasks (w : World) : list Task :=
  default [] (useQuery_data tasksKey w).

(** [useMutation({ mutationFn, onSuccess })]:
    [mutationFn: ({ taskId, ...data }) =>
       apiCall(`/tasks/${taskId}`, { method: 'PUT', data })],
    [onSuccess: () => queryClient.invalidateQueries(
       { queryKey: ['tasks', projectId] })].
    No [onMutate], [onError] or [onSettled] is given. *)
Definition updateTask : MutationOptions :=
  {| mutationFn := λ vars,
       let taskId := default "undefined" (vars !! "taskId") in
       let data := delete "taskId" vars in
       apiCall BACKEND_URL user ("/tasks/" +:+ taskId)
         {| opt_method := Some "PUT"; opt_data := Some data;
            opt_headers := None |};
     onMutate := None;
     onSuccess := Some (λ _, invalidateQueries tasksKey);
     onError := None;
     onSettled := None |}.

(** [columns], in the order [Object.entries] lists it. *)
Definition columns : list (string * Column) :=
  [ ("backlog", {| title := "Backlog"; color := "bg-gray-600" |});
    ("todo", {| title := "To Do"; color := "bg-blue-600" |});
    ("in_progress", {| title := "In Progress"; color := "bg-orange-600" |});
    ("done", {| title := "Done"; color := "bg-green-600" |}) ].

(** [tasks.filter(task => task.status === status)] *)
Definition getTasksByStatus (w : World) (st : string) : list Task :=
  filter (λ task, task_status task = st) (tasks w).

(** [onDragEnd]: return when there is no destination, otherwise
    [updateTask.mutate({ taskId, status: newStatus })]. *)
Definition onDragEnd (result : DropResult) (w : World) : World :=
  match destination result with
  | None => w
  | Some dest =>
      let taskId := draggableId result in
      let newStatus := droppableId dest in
      mutate updateTask
        (<["taskId" := taskId]> {[ "status" := newStatus ]}) w
  end.

(** What the component returns: for each column its key, its heading and
    the cards of [getTasksByStatus]. *)
Definition render (w : World) : list (string * Column * list Task) :=
  map (λ '(st, col), (st, col, getTasksByStatus w st)) columns.
End KanbanBoard.

(** ** The board as App.js is written

    App.js declares, imports and assigns no [apiCall], and never calls
    [createApiCall]: where [mutationFn] calls [apiCall(...)], the call
    throws a ReferenceError before [axios] is reached. *)

(** The message of that error. *)
Definition apiCall_is_not_defined : string :=
  "ReferenceError: apiCall is not defined".

(** [mutation.mutate(vars)] when [mutationFn] throws [err]: the mutation
    enters the cache as pending, [onMutate] runs, no request is issued, and
    the mutation is rejected with [err] before any other event is handled:
    [onError], [onSettled], then its status. *)
Definition mutate_throws (o : MutationOptions) (err : string)
  (vars : JsObject) (w : World) : World :=
  let w1 := set_mutations
              <[nextId w := {| variables := vars; status := Pending |}]> w in
  let w2 := run_callback (onMutate o) vars (fresh_id w1) in
  settle o (nextId w) (Rejected err) w2.

(** What the name [apiCall] stands for where a component calls it. *)
Inductive Binding :=
| AsWritten       (* no binding: the file as it is *)
| BoundToHelper.  (* the function [createApiCall(user)] returns *)

Section KanbanBoardAsWritten.
Variable BACKEND_URL : string.
Variable user : option User.
Variable projectId : string.

(** [onDragEnd] with [apiCall] not bound: the same handler, whose
    [updateTask.mutate] ends in the ReferenceError of [mutationFn]. *)
Definition onDragEnd_as_written (result : DropResult) (w : World) : World :=
  match destination result with
  | None => w
  | Some dest =>
      let taskId := draggableId result in
      let newStatus := droppableId dest in
      mutate_throws (updateTask BACKEND_URL user projectId)
        apiCall_is_not_defined
        (<["taskId" := taskId]> {[ "status" := newStatus ]}) w
  end.

(** [onDragEnd] under either reading of the name. *)
Definition onDragEnd_under (b : Binding) (result : DropResult) (w : World)
  : World :=
  match b with
  | AsWritten => onDragEnd_as_written result w
  | BoundToHelper => onDragEnd BACKEND_URL user projectId result w
  end.

End KanbanBoardAsWritten.

(** ** Reading a trace *)

(** The requests that change the remote store: every method but GET. *)
Definition writes (tr : list Event) : list AxiosConfig :=
  omap (λ e, match e with
             | EvRequest cfg =>
                 if decide (method cfg = "GET") then None else Some cfg
             | _ => None
             end) tr.

(** The filters [invalidateQueries] was called with. *)
Definition invalidations (tr : list Event) : list QueryKey :=
  omap (λ e, match e with EvInvalidate k => Some k | _ => None end) tr.

(** The status the cached list of [projectId] shows for task [tid]. *)
Definition cached_status (projectId tid : string) (w : World) : option string :=
  (task_status ∘ snd) <$> list_find (λ t, task_id t = tid) (tasks projectId w).

(** ** The fetch coordinator *)

Module FetchCoordinator.

(** Modelled from the spec: the fetch coordinator is the query library
    behind [useQuery]; App.js only calls it, and neither [ensureFresh] nor
    its in-flight registry is part of the source. Section 4.2:
    "if no in-flight request exists for key, starts one; if one exists,
    returns the same pending result". The registry maps a key to the
    handle of its pending result; [fetches] lists the network fetches
    started, oldest first. *)
Record Coordinator := {
  inflight : gmap QueryKey nat;
  fetches : list QueryKey;
  nextHandle : nat
}.

(** Modelled from the spec: [ensureFresh(key, fetcher)], returning the
    handle of the pending result the caller waits on. *)
Definition ensureFresh (k : QueryKey) (c : Coordinator)
  : Coordinator * nat :=
  match inflight c !! k with
  | Some h => (c, h)
  | None =>
      ({| inflight := <[k := nextHandle c]> (inflight c);
          fetches := fetches c ++ [k];
          nextHandle := S (nextHandle c) |},
       nextHandle c)
  end.

(** Modelled from the spec: the fetch for [k] ends (success or failure);
    the key leaves the in-flight registry. *)
Definition resolve (k : QueryKey) (c : Coordinator) : Coordinator :=
  {| inflight := delete k (inflight c);
     fetches := fetches c;
     nextHandle := nextHandle c |}.

(** Modelled from the spec: what the single-threaded, cooperative event
    loop of section 5 interleaves, a call of [ensureFresh] or the end of a
    fetch. *)
Inductive Call :=
| Ensure (k : QueryKey)
| Resolve (k : QueryKey).

Global Instance Call_eq_dec : EqDecision Call.
Proof. solve_decision. Defined.

(** Modelled from the spec: a schedule run on one logical thread; the
    second component lists, in order, the handle each [ensureFresh] caller
    received, with the key it asked for. *)
Fixpoint run (cs : list Call) (c : Coordinator)
  : Coordinator * list (QueryKey * nat) :=
  match cs with
  | [] => (c, [])
  | Ensure k :: cs' =>
      let '(c1, h) := ensureFresh k c in
      let '(c2, hs) := run cs' c1 in
      (c2, (k, h) :: hs)
  | Resolve k :: cs' => run cs' (resolve k c)
  end.

(** Number of network fetches performed for [k]. *)
Definition fetch_count (k : QueryKey) (c : Coordinator) : nat :=
  length (filter (λ k', k' = k) (fetches c)).

(** Number of [ensureFresh(k)] calls in a schedule. *)
Definition ensure_count (k : QueryKey) (cs : list Call) : nat :=
  length (filter (λ c, c = Ensure k) cs).

End FetchCoordinator.

(** ** A board to run: project P1 with T1 (todo) and T2 (done) *)

Module Scenario.

Definition backend : string := "http://localhost:8001".

Definition alice : option User :=
  Some {| uid := "user_1"; email := "alice@example.com";
          displayName := "alice"; token := "mock_user_1" |}.

Definition T1 : Task :=
  {| task_id := "T1"; task_title := "Write report";
     task_description := None; task_status := "todo" |}.

Definition T2 : Task :=
  {| task_id := "T2"; task_title := "Ship release";
     task_description := Some "tag and publish"; task_status := "done" |}.

(** The cache after the first fetch of P1's tasks resolved. *)
Definition loaded : World :=
  queryResolved ["tasks"; "P1"] [T1; T2]
    {| queries := ∅; mutations := ∅; nextId := 0; trace := [] |}.

(** The cache before any fetch resolved. *)
Definition unloaded : World :=
  {| queries := ∅; mutations := ∅; nextId := 0; trace := [] |}.

Definition drop (tid st : string) : DropResult :=
  {| draggableId := tid;
     destination := Some {| droppableId := st; index := 0 |} |}.

Definition cancelled (tid : string) : DropResult :=
  {| draggableId := tid; destination := None |}.

Definition board_onDragEnd := onDragEnd backend alice "P1".
Definition board_updateTask := updateTask backend alice "P1".

End Scenario.

(** ** The Pomodoro timer *)

Module Pomodoro.

(** [n] copies of the filler character. *)
Fixpoint fill (n : nat) (c : ascii) : string :=
  match n with
  | O => EmptyString
  | S n' => String c (fill n' c)
  end.

(** [s.padStart(n, c)] for a one-character filler: [s] is returned as it is
    when it has [n] characters or more. *)
Definition padStart (n : nat) (c : ascii) (s : string) : string :=
  fill (n - String.length s) c +:+ s.

(** [formatTime]: [Math.floor(seconds / 60)] is the floor division and [%]
    is the remainder that takes the sign of [seconds]; [toString] prints in
    decimal. *)
Definition formatTime (seconds : Z) : string :=
  let mins := (seconds `div` 60)%Z in
  let secs := (seconds `rem` 60)%Z in
  padStart 2 "0" (pretty mins) +:+ ":" +:+ padStart 2 "0" (pretty secs).

(** The three [useState] cells of the component. *)
Record Timer := {
  timeLeft : Z;
  isRunning : bool;
  isBreak : bool
}.

(** [useState(25 * 60)], [useState(false)], [useState(false)] *)
Definition initial : Timer :=
  {| timeLeft := 25 * 60; isRunning := false; isBreak := false |}.

(** Whether the effect has an interval set: [isRunning && timeLeft > 0]. *)
Definition interval_set (s : Timer) : bool :=
  isRunning s && bool_decide (0 < timeLeft s)%Z.

(** The state change of the effect body, which runs after every render in
    which [isRunning], [timeLeft] or [isBreak] changed: with no interval to
    set and [timeLeft === 0] the phase ends. *)
Definition effect (s : Timer) : Timer :=
  if interval_set s then s
  else if bool_decide (timeLeft s = 0)%Z then
    {| timeLeft := if isBreak s then 25 * 60 else 5 * 60;
       isRunning := false;
       isBreak := negb (isBreak s) |}
  else s.

(** What can happen to the component. *)
Inductive Action :=
| IntervalFires     (* the interval's callback, one second after a render *)
| ClickStartPause
| ClickReset
| ClickSkip.

(** The handlers. The interval callback [setTimeLeft(t => t - 1)] exists
    only while the interval is set. *)
Definition handle (a : Action) (s : Timer) : Timer :=
  match a with
  | IntervalFires =>
      if interval_set s then
        {| timeLeft := timeLeft s - 1; isRunning := isRunning s;
           isBreak := isBreak s |}
      else s
  | ClickStartPause =>
      {| timeLeft := timeLeft s; isRunning := negb (isRunning s);
         isBreak := isBreak s |}
  | ClickReset =>
      {| timeLeft := if isBreak s then 5 * 60 else 25 * 60;
         isRunning := false; isBreak := isBreak s |}
  | ClickSkip =>
      {| timeLeft := if isBreak s then 25 * 60 else 5 * 60;
         isRunning := false; isBreak := negb (isBreak s) |}
  end.

(** A handler, the render it causes, and the effect after that render. *)
Definition step (a : Action) (s : Timer) : Timer := effect (handle a s).

Definition steps (l : list Action) (s : Timer) : Timer :=
  foldl (λ s a, step a s) s l.

(** The length of the phase a timer is in, in seconds. *)
Definition phase_length (s : Timer) : Z :=
  if isBreak s then 5 * 60 else 25 * 60.

(** Unfolds the timer's functions and decides the comparisons. *)
Ltac timer_crush :=
  unfold step, handle, effect, interval_set, phase_length in *; cbn in *;
  repeat (case_bool_decide; cbn in *); try done; try lia;
  try (f_equal; lia).

End Pomodoro.

(** ** The session *)

Module Auth.

(** [s.split(sep)[0]]: the characters of [s] before the first [sep]. *)
Fixpoint split_first (sep : ascii) (s : string) : string :=
  match s with
  | EmptyString => EmptyString
  | String c r =>
      if decide (c = sep) then EmptyString else String c (split_first sep r)
  end.

(** An item of [localStorage]: the JSON text of a user object, which is
    what [login] and [register] write and which is kept as the object it
    parses back to, or a text that is not empty and that [JSON.parse]
    rejects. An item that parses to something other than a user object is
    not modelled. *)
Inductive Stored :=
| UserJson (u : User)
| BadJson.


(** The state of [AuthProvider] and the browser's [localStorage]. *)
Record Session := {
  user : option User;
  loading : bool;
  localStorage : gmap string Stored
}.

(** [useState(null)], [useState(true)], and whatever the browser kept. *)
Definition start (storage : gmap string Stored) : Session :=
  {| user := None; loading := true; localStorage := storage |}.

(** The mount effect: [if (savedUser) setUser(JSON.parse(savedUser))], then
    [setLoading(false)]. There is no [try] around it: when [JSON.parse]
    throws, the effect stops there and neither [setUser] nor
    [setLoading(false)] runs. *)
Definition mount (s : Session) : Session :=
  match localStorage s !! "prodigy_user" with
  | Some (UserJson saved) =>
      {| user := Some saved; loading := false;
         localStorage := localStorage s |}
  | Some BadJson => s
  | None =>
      {| user := user s; loading := false; localStorage := localStorage s |}
  end.

(** The mock user of [login] and [register]. [Date.now()] is read twice,
    for [uid] and for [token]. *)
Definition mockUser (email_ : string) (now1 now2 : N) : User :=
  {| uid := "user_" +:+ pretty now1;
     email := email_;
     displayName := split_first "@" email_;
     token := "mock_user_" +:+ pretty now2 |}.

(** [login(email, password)]: the password is not read. Returns the new
    session and the [{ user: mockUser }] it resolves with. *)
Definition login (email_ password : string) (now1 now2 : N) (s : Session)
  : Session * User :=
  let mock := mockUser email_ now1 now2 in
  ({| user := Some mock; loading := loading s;
      localStorage := <["prodigy_user" := UserJson mock]> (localStorage s) |},
   mock).


(** [logout()] *)
Definition logout (s : Session) : Session :=
  {| user := None; loading := loading s;
     localStorage := delete "prodigy_user" (localStorage s) |}.

(** What a user can do once the provider is mounted. *)
Inductive Action :=
| Login (email_ password : string) (now1 now2 : N)
| Register (email_ password : string) (now1 now2 : N)
| Logout.





End Auth.

(** ** Pages: a component's own state beside the query client

    The mutations of [StudySession] and [WorkSession] have an [onSuccess]
    that invalidates a key and then sets the component's [useState] cells.
    A page pairs the world with those cells; [page_mutate] and
    [page_settle] are [mutate] and [settle] with callbacks that see both. *)

Record Page (C : Type) := {
  world : World;
  local : C
}.
Arguments world {C} _.
Arguments local {C} _.

Definition on_world {C : Type} (f : World → World) (p : Page C) : Page C :=
  {| world := f (world p); local := local p |}.

Definition on_local {C : Type} (f : C → C) (p : Page C) : Page C :=
  {| world := world p; local := f (local p) |}.

Record PageMutationOptions (C : Type) := {
  pm_mutationFn : JsObject → AxiosConfig;
  pm_onMutate : option (JsObject → Page C → Page C);
  pm_onSuccess : option (JsObject → Page C → Page C);
  pm_onError : option (string → JsObject → Page C → Page C);
  pm_onSettled : option (JsObject → Page C → Page C)
}.
Arguments pm_mutationFn {C} _.
Arguments pm_onMutate {C} _.
Arguments pm_onSuccess {C} _.
Arguments pm_onError {C} _.
Arguments pm_onSettled {C} _.

Definition run_page_callback {C : Type}
  (cb : option (JsObject → Page C → Page C)) (vars : JsObject) (p : Page C)
  : Page C :=
  match cb with
  | Some f => f vars p
  | None => p
  end.

Definition page_mutate {C : Type} (o : PageMutationOptions C)
  (vars : JsObject) (p : Page C) : Page C :=
  let p1 := on_world
              (set_mutations
                 <[nextId (world p) :=
                     {| variables := vars; status := Pending |}]>) p in
  let p2 := run_page_callback (pm_onMutate o) vars (on_world fresh_id p1) in
  on_world (emit (EvRequest (pm_mutationFn o vars))) p2.

Definition page_settle {C : Type} (o : PageMutationOptions C) (id : nat)
  (out : Outcome) (p : Page C) : Page C :=
  match mutations (world p) !! id with
  | Some {| variables := vars; status := Pending |} =>
      let p1 := on_world (emit (EvSettled id out)) p in
      let p2 := match out with
                | Resolved => run_page_callback (pm_onSuccess o) vars p1
                | Rejected err =>
                    match pm_onError o with
                    | Some f => f err vars p1
                    | None => p1
                    end
                end in
      let p3 := run_page_callback (pm_onSettled o) vars p2 in
      on_world
        (set_mutations
           <[id := {| variables := vars;
                      status := match out with
                                | Resolved => Success
                                | Rejected err => Error err
                                end |}]>) p3
  | _ => p
  end.

(** ** The work page *)

(** A project as the page reads it. *)
Record Project := {
  project_id : string;
  project_title : string;
  project_description : string;
  project_created_at : string
}.

(** The [useState] cells of [WorkSession]. *)
Record WorkState := {
  selectedProject : option Project;
  showProjectForm : bool;
  showTaskForm : bool;
  projectTitle : string;
  projectDescription : string;
  taskTitle : string;
  taskDescription : string
}.

Section WorkSession.
Variable BACKEND_URL : string.
Variable user : option User.

(** [createProject]: POST /projects, and on success
    [invalidateQueries({ queryKey: ['projects'] })], [setProjectTitle('')],
    [setProjectDescription('')], [setShowProjectForm(false)]. *)
Definition createProject : PageMutationOptions WorkState :=
  {| pm_mutationFn := λ data,
       apiCall BACKEND_URL user "/projects"
         {| opt_method := Some "POST"; opt_data := Some data;
            opt_headers := None |};
     pm_onMutate := None;
     pm_onSuccess := Some (λ _ p,
       {| world := invalidateQueries ["projects"] (world p);
          local :=
            {| selectedProject := selectedProject (local p);
               showProjectForm := false;
               showTaskForm := showTaskForm (local p);
               projectTitle := "";
               projectDescription := "";
               taskTitle := taskTitle (local p);
               taskDescription := taskDescription (local p) |} |});
     pm_onError := None;
     pm_onSettled := None |}.

(** [createTask], in the view of the project [selected] (the task form is
    rendered only there): POST /projects/{selected.id}/tasks, and on
    success [invalidateQueries({ queryKey: ['tasks', selected.id] })],
    [setTaskTitle('')], [setTaskDescription('')],
    [setShowTaskForm(false)]. *)
Definition createTask (selected : Project) : PageMutationOptions WorkState :=
  {| pm_mutationFn := λ data,
       apiCall BACKEND_URL user
         ("/projects/" +:+ project_id selected +:+ "/tasks")
         {| opt_method := Some "POST"; opt_data := Some data;
            opt_headers := None |};
     pm_onMutate := None;
     pm_onSuccess := Some (λ _ p,
       {| world := invalidateQueries ["tasks"; project_id selected] (world p);
          local :=
            {| selectedProject := selectedProject (local p);
               showProjectForm := showProjectForm (local p);
               showTaskForm := false;
               projectTitle := projectTitle (local p);
               projectDescription := projectDescription (local p);
               taskTitle := "";
               taskDescription := "" |} |});
     pm_onError := None;
     pm_onSettled := None |}.

(** [handleProjectSubmit]:
    [createProject.mutate({ title: projectTitle,
                            description: projectDescription })] *)
Definition handleProjectSubmit (p : Page WorkState) : Page WorkState :=
  page_mutate createProject
    (<["title" := projectTitle (local p)]>
       {[ "description" := projectDescription (local p) ]}) p.

(** [handleTaskSubmit]:
    [createTask.mutate({ title: taskTitle, description: taskDescription })] *)
Definition handleTaskSubmit (selected : Project) (p : Page WorkState)
  : Page WorkState :=
  page_mutate (createTask selected)
    (<["title" := taskTitle (local p)]>
       {[ "description" := taskDescription (local p) ]}) p.

End WorkSession.

(** ** The study page *)

(** The [useState] cells of [StudySession]. *)
Record StudyState := {
  question : string;
  answer : string;
  eventTitle : string;
  eventDateTime : string
}.

Section StudySession.
Variable BACKEND_URL : string.
Variable user : option User.

(** [createFlashcard]: POST /flashcards, and on success
    [invalidateQueries({ queryKey: ['flashcards'] })], [setQuestion('')],
    [setAnswer('')]. *)
Definition createFlashcard : PageMutationOptions StudyState :=
  {| pm_mutationFn := λ data,
       apiCall BACKEND_URL user "/flashcards"
         {| opt_method := Some "POST"; opt_data := Some data;
            opt_headers := None |};
     pm_onMutate := None;
     pm_onSuccess := Some (λ _ p,
       {| world := invalidateQueries ["flashcards"] (world p);
          local :=
            {| question := ""; answer := "";
               eventTitle := eventTitle (local p);
               eventDateTime := eventDateTime (local p) |} |});
     pm_onError := None;
     pm_onSettled := None |}.

(** [createEvent]: POST /events, and on success
    [invalidateQueries({ queryKey: ['todayEvents'] })], [setEventTitle('')],
    [setEventDateTime('')]. *)
Definition createEvent : PageMutationOptions StudyState :=
  {| pm_mutationFn := λ data,
       apiCall BACKEND_URL user "/events"
         {| opt_method := Some "POST"; opt_data := Some data;
            opt_headers := None |};
     pm_onMutate := None;
     pm_onSuccess := Some (λ _ p,
       {| world := invalidateQueries ["todayEvents"] (world p);
          local :=
            {| question := question (local p); answer := answer (local p);
               eventTitle := ""; eventDateTime := "" |} |});
     pm_onError := None;
     pm_onSettled := None |}.

(** [handleFlashcardSubmit]: [createFlashcard.mutate({ question, answer })] *)
Definition handleFlashcardSubmit (p : Page StudyState) : Page StudyState :=
  page_mutate createFlashcard
    (<["question" := question (local p)]>
       {[ "answer" := answer (local p) ]}) p.

End StudySession.

(** Whether a world's mutation ids are all below [nextId], so that the next
    [mutate] takes an id no mutation has. *)
Definition ids_fresh (w : World) : Prop :=
  ∀ id, is_Some (mutations w !! id) → id < nextId w.

(** ** Runs of the board *)

(** What can happen to a mounted board: a drag ends, the write of a
    mutation ends, the task-list fetch is issued, the fetch resolves. *)
Inductive BoardEvent :=
| Dropped (result : DropResult)
| WriteSettled (id : nat) (out : Outcome)
| FetchStarted
| TasksFetched (ts : list Task).

Section BoardRuns.
Variable BACKEND_URL : string.
Variable user : option User.
Variable projectId : string.

Definition board_step (e : BoardEvent) (w : World) : World :=
  match e with
  | Dropped result => onDragEnd BACKEND_URL user projectId result w
  | WriteSettled id out =>
      settle (updateTask BACKEND_URL user projectId) id out w
  | FetchStarted => fetchQuery (tasksQueryFn BACKEND_URL user projectId) w
  | TasksFetched ts => queryResolved (tasksKey projectId) ts w
  end.

Definition board_steps (es : list BoardEvent) (w : World) : World :=
  foldl (λ w e, board_step e w) w es.

(** The write a board event asks for: a drop with a destination asks for
    the PUT of its task, nothing else asks for a write. *)
Definition write_of (e : BoardEvent) : option AxiosConfig :=
  match e with
  | Dropped {| draggableId := tid; destination := Some dest |} =>
      Some {| url := API BACKEND_URL +:+ "/tasks/" +:+ tid;
              method := "PUT";
              data := Some {[ "status" := droppableId dest ]};
              headers := authHeader user
                         ∪ {[ "Content-Type" := "application/json" ]} |}
  | _ => None
  end.

End BoardRuns.

(** The settlements of a trace that report success. *)
Definition successes (tr : list Event) : list nat :=
  omap (λ e, match e with EvSettled id Resolved => Some id | _ => None end) tr.

(** ** A study page to run *)

Module StudyScenario.

(** Both event queries are cached and fresh; the event form is filled in
    and its mutation has been started. *)
Definition filled : Page StudyState :=
  {| world :=
       {| queries :=
            <[ ["todayEvents"] := {| q_data := Some []; isInvalidated := false |} ]>
              {[ ["events"] := {| q_data := Some []; isInvalidated := false |} ]};
          mutations := ∅; nextId := 0; trace := [] |};
     local := {| question := "2 + 2?"; answer := "";
                 eventTitle := "Revise"; eventDateTime := "2025-01-01T10:00" |} |}.

(** The body [handleEventSubmit] sends for that form: the title, the event
    type, the time as an ISO text and the duration. *)
Definition event_body : JsObject :=
  <["title" := "Revise"]>
    (<["event_type" := "study"]>
       (<["datetime" := "2025-01-01T10:00:00.000Z"]>
          {[ "duration" := "60" ]})).

Definition submitted : Page StudyState :=
  page_mutate (createEvent Scenario.backend Scenario.alice)
    event_body filled.

End StudyScenario.

(** * Properties *)

(** ** Traces *)

Lemma writes_app (tr1 tr2 : list Event) :
  writes (tr1 ++ tr2) = writes tr1 ++ writes tr2.
Proof. unfold writes. apply omap_app. Qed.

Lemma invalidations_app (tr1 tr2 : list Event) :
  invalidations (tr1 ++ tr2) = invalidations tr1 ++ invalidations tr2.
Proof. unfold invalidations. apply omap_app. Qed.

(** ** One step of the board *)

Section BoardSteps.
Variable BACKEND_URL : string.
Variable user : option User.
Variable projectId : string.

Local Abbreviation updateTask' := (updateTask BACKEND_URL user projectId).
Local Abbreviation onDragEnd' := (onDragEnd BACKEND_URL user projectId).

(** The request [mutationFn] builds from [{ taskId, status }]: the rest
    object [data] is [{ status }]. *)
Lemma updateTask_request (tid st : string) :
  mutationFn updateTask' (<["taskId" := tid]> {[ "status" := st ]})
  = {| url := API BACKEND_URL +:+ "/tasks/" +:+ tid;
       method := "PUT";
       data := Some {[ "status" := st ]};
       headers := authHeader user
                  ∪ {[ "Content-Type" := "application/json" ]} |}.
Proof.
  cbn. unfold apiCall, createApiCall. cbn.
  rewrite lookup_insert_eq. cbn.
  rewrite delete_insert_eq, delete_singleton_ne by done.
  by rewrite (left_id_L ∅ (∪)).
Qed.

(** A drop with a destination: one pending mutation, one request, and
    nothing else. *)
Lemma onDragEnd_drop (tid : string) (dest : Destination) (w : World) :
  onDragEnd' {| draggableId := tid; destination := Some dest |} w
  = {| queries := queries w;
       mutations :=
         <[nextId w :=
             {| variables :=
                  <["taskId" := tid]> {[ "status" := droppableId dest ]};
                status := Pending |}]> (mutations w);
       nextId := S (nextId w);
       trace := trace w ++
         [EvRequest
            {| url := API BACKEND_URL +:+ "/tasks/" +:+ tid;
               method := "PUT";
               data := Some {[ "status" := droppableId dest ]};
               headers := authHeader user
                          ∪ {[ "Content-Type" := "application/json" ]} |}]
    |}.
Proof.
  unfold onDragEnd. cbn [destination draggableId].
  unfold mutate. rewrite updateTask_request. reflexivity.
Qed.

(** The write of a pending mutation succeeds: [onSuccess] invalidates. *)
Lemma settle_updateTask_resolved (id : nat) (vars : JsObject) (w : World) :
  mutations w !! id = Some {| variables := vars; status := Pending |} →
  settle updateTask' id Resolved w
  = set_mutations <[id := {| variables := vars; status := Success |}]>
      (invalidateQueries (tasksKey projectId)
         (emit (EvSettled id Resolved) w)).
Proof. intros H. unfold settle. rewrite H. reflexivity. Qed.

(** The write of a pending mutation fails: there is no [onError] and no
    [onSettled], so only the mutation's status changes. *)
Lemma settle_updateTask_rejected (id : nat) (vars : JsObject) (err : string)
    (w : World) :
  mutations w !! id = Some {| variables := vars; status := Pending |} →
  settle updateTask' id (Rejected err) w
  = set_mutations <[id := {| variables := vars; status := Error err |}]>
      (emit (EvSettled id (Rejected err)) w).
Proof. intros H. unfold settle. rewrite H. reflexivity. Qed.

(** The mutation a drop creates is pending under the id [nextId w]. *)
Lemma onDragEnd_pending (tid : string) (dest : Destination) (w : World) :
  mutations (onDragEnd' {| draggableId := tid; destination := Some dest |} w)
    !! nextId w
  = Some {| variables :=
              <["taskId" := tid]> {[ "status" := droppableId dest ]};
            status := Pending |}.
Proof. rewrite onDragEnd_drop. cbn. apply lookup_insert_eq. Qed.

End BoardSteps.

(** ** The cache under the board's steps *)

Lemma invalidateQueries_lookup (filter k : QueryKey) (w : World) :
  queries (invalidateQueries filter w) !! k
  = (λ q, if bool_decide (filter `prefix_of` k) then mark_invalidated q else q)
      <$> queries w !! k.
Proof.
  unfold invalidateQueries. cbn. rewrite map_lookup_imap.
  by destruct (queries w !! k).
Qed.

(** Invalidation marks entries; it never touches their data. *)
Lemma invalidateQueries_data (filter k : QueryKey) (w : World) :
  useQuery_data k (invalidateQueries filter w) = useQuery_data k w.
Proof.
  unfold useQuery_data. rewrite invalidateQueries_lookup.
  destruct (queries w !! k) as [q|]; [|done]. cbn.
  by case_bool_decide.
Qed.

(** A key [['tasks', p]] starts with [['tasks', projectId]] only when it is
    that key. *)
Lemma tasksKey_prefix (projectId p : string) :
  tasksKey projectId `prefix_of` ["tasks"; p] ↔ p = projectId.
Proof.
  unfold tasksKey. split.
  - intros [k Hk]. by simplify_eq/=.
  - intros ->. done.
Qed.

(** No one-element key starts with [['tasks', projectId]]. *)
Lemma tasksKey_not_prefix_single (projectId name : string) :
  ¬ tasksKey projectId `prefix_of` [name].
Proof. unfold tasksKey. intros [k Hk]. by simplify_eq/=. Qed.

Section CacheSteps.
Variable BACKEND_URL : string.
Variable user : option User.
Variable projectId : string.

(** The drag handler leaves every query as it is. *)
Lemma onDragEnd_queries (r : DropResult) (w : World) :
  queries (onDragEnd BACKEND_URL user projectId r w) = queries w.
Proof. unfold onDragEnd. by destruct (destination r). Qed.

(** Whatever the outcome, settling the write leaves every query's data as
    it is: only a refetch that resolves replaces data. *)
Lemma settle_updateTask_data (id : nat) (out : Outcome) (k : QueryKey)
    (w : World) :
  useQuery_data k (settle (updateTask BACKEND_URL user projectId) id out w)
  = useQuery_data k w.
Proof.
  unfold settle.
  destruct (mutations w !! id) as [[vars []]|]; try done.
  destruct out; cbn; [|done].
  unfold useQuery_data. cbn. rewrite map_lookup_imap.
  destruct (queries w !! k) as [q|]; [|done]. cbn.
  by case_bool_decide.
Qed.

Lemma onDragEnd_tasks (p : string) (r : DropResult) (w : World) :
  tasks p (onDragEnd BACKEND_URL user projectId r w) = tasks p w.
Proof. unfold tasks, useQuery_data. by rewrite onDragEnd_queries. Qed.

Lemma settle_updateTask_tasks (p : string) (id : nat) (out : Outcome)
    (w : World) :
  tasks p (settle (updateTask BACKEND_URL user projectId) id out w)
  = tasks p w.
Proof. unfold tasks. by rewrite settle_updateTask_data. Qed.

(** The write a drop issues is the only thing it adds to the trace. *)
Lemma onDragEnd_writes (tid : string) (dest : Destination) (w : World) :
  writes (trace (onDragEnd BACKEND_URL user projectId
                   {| draggableId := tid; destination := Some dest |} w))
  = writes (trace w) ++
      [{| url := API BACKEND_URL +:+ "/tasks/" +:+ tid;
          method := "PUT";
          data := Some {[ "status" := droppableId dest ]};
          headers := authHeader user
                     ∪ {[ "Content-Type" := "application/json" ]} |}].
Proof. rewrite onDragEnd_drop. cbn [trace]. by rewrite writes_app. Qed.

Lemma onDragEnd_invalidations (r : DropResult) (w : World) :
  invalidations (trace (onDragEnd BACKEND_URL user projectId r w))
  = invalidations (trace w).
Proof.
  destruct r as [tid [dest|]]; [|done].
  rewrite onDragEnd_drop. cbn [trace]. rewrite invalidations_app. cbn.
  by rewrite app_nil_r.
Qed.

End CacheSteps.

(** ** The drag handler *)

(** C7. A drag that ends with no destination (the card is released outside
    every column) is a no-op: [onDragEnd] returns the world it was given, so
    no mutation is created, no request is issued and the cache is as it
    was. *)
Theorem onDragEnd_no_destination
    (BACKEND_URL : string) (user : option User) (projectId : string)
    (tid : string) (w : World) :
  let w' := onDragEnd BACKEND_URL user projectId
              {| draggableId := tid; destination := None |} w in
  w' = w
  ∧ mutations w' = mutations w
  ∧ trace w' = trace w
  ∧ queries w' = queries w.
Proof. cbn. done. Qed.

(** With [apiCall] bound to the helper, a drop with a destination issues
    exactly one request: method PUT, path [/tasks/{taskId}] under the API
    root, and a body that is the object [{ status }] holding the
    destination column's id. This is the request [mutationFn] sets out to
    make. *)
Lemma onDragEnd_issues_put
    (BACKEND_URL : string) (user : option User) (projectId : string)
    (tid : string) (dest : Destination) (w : World) :
  ∃ cfg,
    trace (onDragEnd BACKEND_URL user projectId
             {| draggableId := tid; destination := Some dest |} w)
      = trace w ++ [EvRequest cfg]
    ∧ method cfg = "PUT"
    ∧ url cfg = (BACKEND_URL +:+ "/api") +:+ "/tasks/" +:+ tid
    ∧ data cfg = Some {[ "status" := droppableId dest ]}
    ∧ (∀ body, data cfg = Some body →
         body !! "status" = Some (droppableId dest)).
Proof.
  rewrite onDragEnd_drop. cbn [trace].
  eexists. split; [reflexivity|]. cbn.
  repeat split; try done.
  intros body [= <-]. apply lookup_singleton_eq.
Qed.

(** ** The drag handler as App.js is written *)

Section AsWrittenSteps.
Variable BACKEND_URL : string.
Variable user : option User.
Variable projectId : string.

(** A drop with a destination, with [apiCall] not bound: one mutation,
    rejected with the ReferenceError, no request, and nothing else. *)
Lemma onDragEnd_as_written_drop (tid : string) (dest : Destination)
    (w : World) :
  onDragEnd_as_written BACKEND_URL user projectId
    {| draggableId := tid; destination := Some dest |} w
  = {| queries := queries w;
       mutations :=
         <[nextId w :=
             {| variables :=
                  <["taskId" := tid]> {[ "status" := droppableId dest ]};
                status := Error apiCall_is_not_defined |}]> (mutations w);
       nextId := S (nextId w);
       trace := trace w ++
         [EvSettled (nextId w) (Rejected apiCall_is_not_defined)] |}.
Proof.
  unfold onDragEnd_as_written. cbn [destination draggableId].
  unfold mutate_throws. cbn [updateTask onMutate run_callback].
  erewrite settle_updateTask_rejected
    by (cbn [mutations fresh_id set_mutations]; apply lookup_insert_eq).
  unfold set_mutations, emit, fresh_id. cbn [queries mutations nextId trace].
  by rewrite insert_insert_eq.
Qed.

(** Under either reading of [apiCall], a drop with a destination records
    one mutation with the drop's variables, under the next id, and leaves
    every query and the list of invalidations as they were. *)
Lemma onDragEnd_under_drop (b : Binding) (tid : string) (dest : Destination)
    (w : World) :
  let w' := onDragEnd_under BACKEND_URL user projectId b
              {| draggableId := tid; destination := Some dest |} w in
  variables <$> mutations w' !! nextId w
    = Some (<["taskId" := tid]> {[ "status" := droppableId dest ]})
  ∧ nextId w' = S (nextId w)
  ∧ queries w' = queries w
  ∧ invalidations (trace w') = invalidations (trace w).
Proof.
  destruct b; cbn [onDragEnd_under].
  - rewrite onDragEnd_as_written_drop. cbn.
    rewrite lookup_insert_eq, invalidations_app. cbn.
    by rewrite app_nil_r.
  - rewrite onDragEnd_drop. cbn.
    rewrite lookup_insert_eq, invalidations_app. cbn.
    by rewrite app_nil_r.
Qed.

End AsWrittenSteps.

(** C8. As App.js is written, a drop with a destination sends no request at
    all: [mutationFn] calls [apiCall], which no declaration binds, so the
    trace gains the mutation's rejection and nothing else, the writes are
    what they were, and the mutation ends with the ReferenceError as its
    error. The PUT to [/tasks/{taskId}] is what [mutationFn] sets out to
    send ([onDragEnd_issues_put]) and never does. *)
Theorem drop_as_written_sends_nothing
    (BACKEND_URL : string) (user : option User) (projectId : string)
    (tid : string) (dest : Destination) (w : World) :
  let w' := onDragEnd_as_written BACKEND_URL user projectId
              {| draggableId := tid; destination := Some dest |} w in
  trace w' = trace w ++
               [EvSettled (nextId w) (Rejected apiCall_is_not_defined)]
  ∧ writes (trace w') = writes (trace w)
  ∧ mutations w' !! nextId w
    = Some {| variables :=
                <["taskId" := tid]> {[ "status" := droppableId dest ]};
              status := Error apiCall_is_not_defined |}
  ∧ useMutation_status w' = Error apiCall_is_not_defined
  ∧ queries w' = queries w.
Proof.
  cbn zeta. rewrite onDragEnd_as_written_drop.
  cbn [trace mutations queries].
  split; [done|]. split.
  { rewrite writes_app. cbn. by rewrite app_nil_r. }
  split; [apply lookup_insert_eq|]. split; [|done].
  unfold useMutation_status. cbn. by rewrite lookup_insert_eq.
Qed.

(** ** Dropping a card into the column it is already in *)

(** C1, as stated, fails. T1 is cached with status todo; dropping it on the
    todo column is no no-op: [onDragEnd] never compares the destination
    with the task's status and calls [updateTask.mutate] with the unchanged
    status. The mutation cache, empty before, holds that mutation after, as
    App.js is written (where it has ended in the ReferenceError) and with
    [apiCall] bound (where it is pending). *)
Lemma same_column_drop_starts_mutation :
  let vars : JsObject := <["taskId" := "T1"]> {[ "status" := "todo" ]} in
  let w1 := onDragEnd_under Scenario.backend Scenario.alice "P1" AsWritten
              (Scenario.drop "T1" "todo") Scenario.loaded in
  let w2 := onDragEnd_under Scenario.backend Scenario.alice "P1" BoundToHelper
              (Scenario.drop "T1" "todo") Scenario.loaded in
  cached_status "P1" "T1" Scenario.loaded = Some "todo"
  ∧ mutations Scenario.loaded !! 0 = None
  ∧ mutations w1 !! 0
    = Some {| variables := vars; status := Error apiCall_is_not_defined |}
  ∧ mutations w2 !! 0 = Some {| variables := vars; status := Pending |}
  ∧ w1 ≠ Scenario.loaded
  ∧ w2 ≠ Scenario.loaded.
Proof.
  repeat split; try (vm_compute; reflexivity);
    intros H; apply (f_equal nextId) in H; vm_compute in H; discriminate.
Qed.

(** C1, amended. For a drop whose destination is the status the cached task
    already has, the handler is no no-op: as for any other drop with a
    destination it starts one mutation, recorded under the next id with the
    task's id and that same status as its variables. The handler itself
    invalidates nothing and leaves every query as it was. This holds as
    App.js is written and with [apiCall] bound. *)
Theorem same_column_drop_is_a_mutation
    (b : Binding) (BACKEND_URL : string) (user : option User)
    (projectId : string) (tid : string) (dest : Destination) (w : World) :
  cached_status projectId tid w = Some (droppableId dest) →
  let w' := onDragEnd_under BACKEND_URL user projectId b
              {| draggableId := tid; destination := Some dest |} w in
  variables <$> mutations w' !! nextId w
    = Some (<["taskId" := tid]> {[ "status" := droppableId dest ]})
  ∧ nextId w' = S (nextId w)
  ∧ queries w' = queries w
  ∧ invalidations (trace w') = invalidations (trace w).
Proof. intros _. apply onDragEnd_under_drop. Qed.

Lemma same_column_drop_is_a_mutation_witness :
  nextId (onDragEnd_under Scenario.backend Scenario.alice "P1" AsWritten
            (Scenario.drop "T1" "todo") Scenario.loaded)
  = S (nextId Scenario.loaded).
Proof.
  refine (proj1 (proj2
    (same_column_drop_is_a_mutation AsWritten Scenario.backend Scenario.alice
       "P1" "T1" {| droppableId := "todo"; index := 0 |} Scenario.loaded _))).
  vm_compute. reflexivity.
Defined.

(** ** After the drop *)




(** ** When the write fails *)

(** C3, as stated, fails. T1 (todo) is dropped on done and the write is
    rejected: the trace holds the request and its settlement and no
    invalidation, so the affected key is not invalidated. *)
Lemma failed_write_not_invalidated :
  let w1 := Scenario.board_onDragEnd (Scenario.drop "T1" "done")
              Scenario.loaded in
  let w2 := settle Scenario.board_updateTask 0 (Rejected "500") w1 in
  status <$> mutations w2 !! 0 = Some (Error "500")
  ∧ invalidations (trace w2) = []
  ∧ (isInvalidated <$> queries w2 !! ["tasks"; "P1"]) = Some false.
Proof. vm_compute. done. Qed.

(** C3, amended. When the write of a task-status mutation fails, the cached
    task list is what it was before the drag (it was never patched, so the
    task's status is its value before the drag), the error is recorded as
    the mutation's status, and no query key is invalidated: [updateTask]
    has no [onError] and no [onSettled]. *)
Theorem failed_write_keeps_cache
    (BACKEND_URL : string) (user : option User) (projectId : string)
    (tid old err : string) (dest : Destination) (w : World) :
  cached_status projectId tid w = Some old →
  let w1 := onDragEnd BACKEND_URL user projectId
              {| draggableId := tid; destination := Some dest |} w in
  let w2 := settle (updateTask BACKEND_URL user projectId) (nextId w)
              (Rejected err) w1 in
  tasks projectId w2 = tasks projectId w
  ∧ cached_status projectId tid w2 = Some old
  ∧ queries w2 = queries w
  ∧ useMutation_status w2 = Error err
  ∧ invalidations (trace w2) = invalidations (trace w).
Proof.
  intros Hold w1 w2.
  assert (Ht : tasks projectId w2 = tasks projectId w).
  { subst w2 w1. by rewrite settle_updateTask_tasks, onDragEnd_tasks. }
  split; [done|].
  split; [unfold cached_status in *; by rewrite Ht|].
  subst w2 w1.
  erewrite settle_updateTask_rejected by apply onDragEnd_pending.
  rewrite onDragEnd_drop.
  cbn [queries trace nextId mutations set_mutations emit].
  split; [done|]. split.
  - unfold useMutation_status. cbn. by rewrite lookup_insert_eq.
  - rewrite !invalidations_app. cbn. by rewrite !app_nil_r.
Qed.

Lemma failed_write_keeps_cache_witness :
  let w1 := Scenario.board_onDragEnd (Scenario.drop "T1" "done")
              Scenario.loaded in
  cached_status "P1" "T1"
    (settle Scenario.board_updateTask 0 (Rejected "500") w1)
  = Some "todo".
Proof.
  refine (proj1 (proj2
    (failed_write_keeps_cache Scenario.backend Scenario.alice "P1"
       "T1" "todo" "500" {| droppableId := "done"; index := 0 |}
       Scenario.loaded _))).
  vm_compute. reflexivity.
Defined.

(** ** When the write succeeds *)

(** C5. A drop's mutation adds no invalidation while its write is in
    flight. When the write succeeds, the trace gains the settlement followed
    by one invalidation, of [['tasks', projectId]]; in the cache exactly the
    queries whose key starts with that key are marked, so the task list of
    any other project and every one-element key ([['projects']],
    [['flashcards']], ...) are left alone, and no query's data changes. *)
Theorem successful_write_invalidates_tasks_key
    (BACKEND_URL : string) (user : option User) (projectId : string)
    (tid : string) (dest : Destination) (w : World) :
  let w1 := onDragEnd BACKEND_URL user projectId
              {| draggableId := tid; destination := Some dest |} w in
  let w2 := settle (updateTask BACKEND_URL user projectId) (nextId w)
              Resolved w1 in
  invalidations (trace w1) = invalidations (trace w)
  ∧ trace w2 = trace w1 ++ [EvSettled (nextId w) Resolved;
                            EvInvalidate ["tasks"; projectId]]
  ∧ invalidations (trace w2)
      = invalidations (trace w) ++ [["tasks"; projectId]]
  ∧ queries w2 !! ["tasks"; projectId]
      = mark_invalidated <$> queries w !! ["tasks"; projectId]
  ∧ (∀ p, p ≠ projectId →
       queries w2 !! ["tasks"; p] = queries w !! ["tasks"; p])
  ∧ (∀ name, queries w2 !! [name] = queries w !! [name])
  ∧ (∀ k, useQuery_data k w2 = useQuery_data k w).
Proof.
  intros w1 w2.
  assert (Hq : ∀ k, queries w2 !! k
                 = (λ q, if bool_decide (tasksKey projectId `prefix_of` k)
                         then mark_invalidated q else q) <$> queries w !! k).
  { intros k. subst w2 w1.
    erewrite settle_updateTask_resolved by apply onDragEnd_pending.
    cbn [queries set_mutations].
    rewrite invalidateQueries_lookup. cbn [queries emit].
    by rewrite onDragEnd_queries. }
  split; [apply onDragEnd_invalidations|].
  split.
  { subst w2. erewrite settle_updateTask_resolved by apply onDragEnd_pending.
    cbn. by rewrite <-app_assoc. }
  split.
  { subst w2. erewrite settle_updateTask_resolved by apply onDragEnd_pending.
    cbn [trace set_mutations invalidateQueries emit set_queries].
    rewrite !invalidations_app. subst w1. rewrite onDragEnd_invalidations.
    cbn. by rewrite app_nil_r. }
  split.
  { rewrite Hq. rewrite bool_decide_eq_true_2; [done|].
    by apply tasksKey_prefix. }
  split.
  { intros p Hp. rewrite Hq. rewrite bool_decide_eq_false_2.
    - by destruct (queries w !! ["tasks"; p]).
    - by rewrite tasksKey_prefix. }
  split.
  { intros name. rewrite Hq. rewrite bool_decide_eq_false_2.
    - by destruct (queries w !! [name]).
    - apply tasksKey_not_prefix_single. }
  intros k. subst w2 w1. rewrite settle_updateTask_data.
  unfold useQuery_data. by rewrite onDragEnd_queries.
Qed.

(** ** Columns *)

(** Filtering a list by each of the four column ids splits it, provided the
    list holds no other status. *)
Lemma four_filters_permutation (l : list Task) :
  Forall (λ t, task_status t ∈ columns.*1) l →
  filter (λ t, task_status t = "backlog") l
    ++ filter (λ t, task_status t = "todo") l
    ++ filter (λ t, task_status t = "in_progress") l
    ++ filter (λ t, task_status t = "done") l
  ≡ₚ l.
Proof.
  induction 1 as [|t l Ht _ IH]; [done|].
  rewrite !filter_cons.
  cbn in Ht. set_unfold in Ht.
  destruct Ht as [Ht|[Ht|[Ht|[Ht|[]]]]]; rewrite Ht;
    repeat (case_decide; try done); cbn;
    rewrite <-?Permutation_middle; by f_equiv.
Qed.

(** A task sits in the column of its own status only. *)
Lemma getTasksByStatus_elem (projectId : string) (w : World) (st : string)
    (t : Task) :
  t ∈ getTasksByStatus projectId w st
  ↔ task_status t = st ∧ t ∈ tasks projectId w.
Proof. unfold getTasksByStatus. by rewrite list_elem_of_filter. Qed.

(** The four filters together keep the tasks whose status is a column id,
    and nothing else. *)
Lemma four_filters_known (l : list Task) :
  filter (λ t, task_status t = "backlog") l
    ++ filter (λ t, task_status t = "todo") l
    ++ filter (λ t, task_status t = "in_progress") l
    ++ filter (λ t, task_status t = "done") l
  ≡ₚ filter (λ t, task_status t ∈ columns.*1) l.
Proof.
  set (known := λ t : Task, task_status t ∈ columns.*1).
  assert (Hall : Forall known (filter known l)).
  { apply Forall_forall. intros t Ht.
    by apply list_elem_of_filter in Ht as [? _]. }
  rewrite <-(four_filters_permutation _ Hall).
  rewrite !list_filter_filter_l; [done|..];
    intros t Ht; unfold known; rewrite Ht; cbn; set_solver.
Qed.

(** C4, amended. For every task list, two different columns share no task,
    and the cards of the four rendered columns taken together are the tasks
    whose status is one of the four column ids, each as often as the list
    has it: a task with such a status is in exactly one column, the one of
    its status, and a task with any other status is in no column. *)
Theorem columns_partition_known_tasks (projectId : string) (w : World) :
  mjoin ((render projectId w).*2)
    ≡ₚ filter (λ t, task_status t ∈ columns.*1) (tasks projectId w)
  ∧ (∀ st1 st2 t, st1 ≠ st2 →
       t ∈ getTasksByStatus projectId w st1 →
       t ∉ getTasksByStatus projectId w st2)
  ∧ (∀ t, t ∈ tasks projectId w → task_status t ∈ columns.*1 →
       t ∈ getTasksByStatus projectId w (task_status t)
       ∧ ∀ st, t ∈ getTasksByStatus projectId w st → st = task_status t)
  ∧ (∀ t st, task_status t ∉ columns.*1 → st ∈ columns.*1 →
       t ∉ getTasksByStatus projectId w st).
Proof.
  split; [|split; [|split]].
  - cbn. rewrite app_nil_r. unfold getTasksByStatus.
    apply four_filters_known.
  - intros st1 st2 t Hne H1 H2.
    apply getTasksByStatus_elem in H1 as [E1 _].
    apply getTasksByStatus_elem in H2 as [E2 _]. congruence.
  - intros t Ht _. split; [by apply getTasksByStatus_elem|].
    intros st H'. by apply getTasksByStatus_elem in H' as [<- _].
  - intros t st Hun Hst H'.
    apply getTasksByStatus_elem in H' as [E _]. by rewrite E in Hun.
Qed.

(** C6. What the board renders is a function of the data the cache holds
    under [['tasks', projectId]]: the component has no state of its own, so
    two worlds with the same cached data for that key render the same
    columns, whatever else differs (mutations, requests, other queries,
    invalidation marks), and each column's cards are the filter of that
    data by the column's id. *)
Theorem render_reads_only_cached_tasks (projectId : string) (w1 w2 : World) :
  useQuery_data (tasksKey projectId) w1 = useQuery_data (tasksKey projectId) w2 →
  render projectId w1 = render projectId w2
  ∧ render projectId w1
    = map (λ '(st, col),
             (st, col,
              filter (λ t, task_status t = st)
                (default [] (useQuery_data (tasksKey projectId) w2))))
        columns.
Proof.
  intros H. unfold render, getTasksByStatus, tasks. by rewrite H.
Qed.

Lemma render_reads_only_cached_tasks_witness :
  let w2 := settle Scenario.board_updateTask 0 Resolved
              (Scenario.board_onDragEnd (Scenario.drop "T1" "done")
                 Scenario.loaded) in
  Scenario.loaded ≠ w2 ∧ render "P1" Scenario.loaded = render "P1" w2.
Proof.
  intros w2. split.
  - intros H. apply (f_equal nextId) in H. vm_compute in H. discriminate.
  - refine (proj1 (render_reads_only_cached_tasks "P1" Scenario.loaded w2 _)).
    vm_compute. reflexivity.
Defined.

(** C10. While the task-list query has no data ([data] is [undefined],
    before the first fetch resolves or after it failed), [tasks] is the
    empty list, every column filter is empty, and the board renders its four
    columns with no card. *)
Theorem no_data_renders_empty_columns (projectId : string) (w : World) :
  useQuery_data (tasksKey projectId) w = None →
  tasks projectId w = []
  ∧ (∀ st, getTasksByStatus projectId w st = [])
  ∧ render projectId w = map (λ '(st, col), (st, col, [])) columns.
Proof.
  intros H.
  assert (Ht : tasks projectId w = []) by (unfold tasks; by rewrite H).
  split; [done|].
  assert (Hf : ∀ st, getTasksByStatus projectId w st = []).
  { intros st. unfold getTasksByStatus. by rewrite Ht. }
  split; [done|]. unfold render. cbn. by rewrite !Hf.
Qed.

Lemma no_data_renders_empty_columns_witness :
  render "P1" Scenario.unloaded
  = map (λ '(st, col), (st, col, [])) columns.
Proof.
  refine (proj2 (proj2 (no_data_renders_empty_columns "P1" Scenario.unloaded _))).
  vm_compute. reflexivity.
Defined.

(** ** Request deduplication *)

Section Dedup.
Import FetchCoordinator.

Lemma run_Ensure (k : QueryKey) (cs : list Call) (c : Coordinator) :
  run (Ensure k :: cs) c
  = ((run cs (ensureFresh k c).1).1,
     (k, (ensureFresh k c).2) :: (run cs (ensureFresh k c).1).2).
Proof.
  cbn [run]. destruct (ensureFresh k c) as [c1 h]. cbn [fst snd].
  by destruct (run cs c1) as [c2 hs].
Qed.

Lemma ensureFresh_hit (k : QueryKey) (h : nat) (c : Coordinator) :
  inflight c !! k = Some h → ensureFresh k c = (c, h).
Proof. intros H. unfold ensureFresh. by rewrite H. Qed.

Lemma fetch_count_snoc (k k' : QueryKey) (c : Coordinator) (m : gmap QueryKey nat)
    (n : nat) :
  fetch_count k {| inflight := m; fetches := fetches c ++ [k']; nextHandle := n |}
  = fetch_count k c + (if decide (k' = k) then 1 else 0).
Proof.
  unfold fetch_count. cbn [fetches].
  rewrite filter_app, length_app, filter_cons.
  by case_decide; subst.
Qed.

(** A call for another key neither changes whether [k] is in flight nor
    fetches [k]. *)
Lemma ensureFresh_other (k k' : QueryKey) (c : Coordinator) :
  k' ≠ k →
  inflight (ensureFresh k' c).1 !! k = inflight c !! k
  ∧ fetch_count k (ensureFresh k' c).1 = fetch_count k c.
Proof.
  intros Hne. unfold ensureFresh.
  destruct (inflight c !! k') as [h'|]; [done|]. cbn [fst inflight].
  rewrite lookup_insert_ne by done. split; [done|].
  rewrite fetch_count_snoc. rewrite decide_False by done. lia.
Qed.

(** While [k] is in flight with handle [h] and does not resolve, no fetch
    for [k] starts and every caller for [k] is handed [h]. *)
Lemma run_in_flight (k : QueryKey) (h : nat) (cs : list Call) :
  ∀ c, inflight c !! k = Some h →
       Resolve k ∉ cs →
       fetch_count k (run cs c).1 = fetch_count k c
       ∧ ∀ h', (k, h') ∈ (run cs c).2 → h' = h.
Proof.
  induction cs as [|[k'|k'] cs IH]; intros c Hin Hres.
  - cbn. split; [done|]. intros h' H'. by apply elem_of_nil in H'.
  - apply not_elem_of_cons in Hres as [_ Hres].
    rewrite run_Ensure. cbn [fst snd].
    destruct (decide (k' = k)) as [->|Hne].
    + rewrite (ensureFresh_hit _ _ _ Hin). cbn [fst snd].
      destruct (IH c Hin Hres) as [Hc Hh]. split; [done|].
      intros h' [H'|H']%elem_of_cons; [congruence|by apply Hh].
    + destruct (ensureFresh_other k k' c Hne) as [Hi Hf].
      destruct (IH (ensureFresh k' c).1) as [Hc Hh];
        [by rewrite Hi|done|].
      split; [by rewrite Hc|].
      intros h' [H'|H']%elem_of_cons; [congruence|by apply Hh].
  - apply not_elem_of_cons in Hres as [Hne Hres].
    cbn [run]. assert (k' ≠ k) by congruence.
    destruct (IH (resolve k' c)) as [Hc Hh]; [|done|done].
    cbn. by rewrite lookup_delete_ne.
Qed.

(** From a state where [k] is not in flight: the first call for [k]
    starts the only fetch. *)
Lemma run_not_in_flight (k : QueryKey) (cs : list Call) :
  ∀ c, inflight c !! k = None →
       Resolve k ∉ cs →
       fetch_count k (run cs c).1
         = fetch_count k c + (if decide (ensure_count k cs = 0) then 0 else 1)
       ∧ ∃ h, ∀ h', (k, h') ∈ (run cs c).2 → h' = h.
Proof.
  induction cs as [|[k'|k'] cs IH]; intros c Hin Hres.
  - cbn [run fst snd]. split.
    + rewrite decide_True by done. lia.
    + exists 0. intros h' H'. by apply elem_of_nil in H'.
  - apply not_elem_of_cons in Hres as [_ Hres].
    rewrite run_Ensure. cbn [fst snd].
    unfold ensure_count. rewrite filter_cons.
    destruct (decide (k' = k)) as [->|Hne].
    + rewrite (decide_True (P := Ensure k = Ensure k)) by done.
      cbn [length]. rewrite decide_False by done.
      unfold ensureFresh. rewrite Hin. cbn [fst snd].
      set (c1 := {| inflight := <[k:=nextHandle c]> (inflight c);
                    fetches := fetches c ++ [k];
                    nextHandle := S (nextHandle c) |}).
      destruct (run_in_flight k (nextHandle c) cs c1) as [Hc Hh];
        [apply lookup_insert_eq|done|].
      split.
      * rewrite Hc. unfold c1. rewrite fetch_count_snoc.
        by rewrite decide_True.
      * exists (nextHandle c).
        intros h' [H'|H']%elem_of_cons; [congruence|by apply Hh].
    + rewrite (decide_False (P := Ensure k' = Ensure k)) by congruence.
      destruct (ensureFresh_other k k' c Hne) as [Hi Hf].
      destruct (IH (ensureFresh k' c).1) as [Hc [h Hh]];
        [by rewrite Hi|done|].
      split; [by rewrite Hc, Hf|].
      exists h. intros h' [H'|H']%elem_of_cons; [congruence|by apply Hh].
  - apply not_elem_of_cons in Hres as [Hne Hres].
    cbn [run]. assert (k' ≠ k) by congruence.
    unfold ensure_count. rewrite filter_cons.
    rewrite (decide_False (P := Resolve k' = Ensure k)) by done.
    destruct (IH (resolve k' c)) as [Hc Hh]; [|done|done].
    cbn. by rewrite lookup_delete_ne.
Qed.

(** Every [ensureFresh(k)] caller of a schedule is handed a result. *)
Lemma run_handles_count (k : QueryKey) (cs : list Call) :
  ∀ c, length (filter (λ p, p.1 = k) (run cs c).2) = ensure_count k cs.
Proof.
  unfold ensure_count.
  induction cs as [|[k'|k'] cs IH]; intros c; [done| |].
  - rewrite run_Ensure. cbn [snd]. rewrite !filter_cons. cbn [fst].
    destruct (decide (k' = k)) as [->|Hne].
    + rewrite (decide_True (P := Ensure k = Ensure k)) by done.
      cbn [length]. by rewrite IH.
    + rewrite (decide_False (P := Ensure k' = Ensure k)) by congruence.
      apply IH.
  - cbn [run]. rewrite filter_cons.
    rewrite (decide_False (P := Resolve k' = Ensure k)) by done.
    apply IH.
Qed.

(** C9. Start with no request in flight for [k] and run any schedule in
    which [ensureFresh(k)] is called N times, N at least one, and the fetch
    for [k] does not resolve (calls and resolutions for other keys may be
    interleaved): exactly one network fetch for [k] is performed, each of
    the N callers is handed a pending result, and it is the same one for
    all of them. *)
Theorem ensureFresh_deduplicates (k : QueryKey) (cs : list Call)
    (c : Coordinator) :
  inflight c !! k = None →
  Resolve k ∉ cs →
  0 < ensure_count k cs →
  fetch_count k (run cs c).1 = S (fetch_count k c)
  ∧ length (filter (λ p, p.1 = k) (run cs c).2) = ensure_count k cs
  ∧ ∃ h, ∀ h', (k, h') ∈ (run cs c).2 → h' = h.
Proof.
  intros Hin Hres Hn.
  destruct (run_not_in_flight k cs c Hin Hres) as [Hc Hh].
  split; [|split; [apply run_handles_count|done]].
  rewrite Hc. rewrite decide_False by lia. lia.
Qed.

Lemma ensureFresh_deduplicates_witness :
  let c0 := {| inflight := ∅; fetches := []; nextHandle := 0 |} in
  let cs := [Ensure ["tasks"; "P1"]; Ensure ["projects"];
             Ensure ["tasks"; "P1"]; Resolve ["projects"];
             Ensure ["tasks"; "P1"]] in
  fetch_count ["tasks"; "P1"] (run cs c0).1 = 1.
Proof.
  intros c0 cs.
  refine (proj1 (ensureFresh_deduplicates ["tasks"; "P1"] cs c0 _ _ _)).
  - vm_compute. reflexivity.
  - unfold cs. rewrite !not_elem_of_cons.
    repeat split; try discriminate. apply not_elem_of_nil.
  - vm_compute. lia.
Defined.

End Dedup.

(** ** The board at work *)

(** C4, as stated, fails. A task whose status is none of the four column
    ids is in no column: the cached list holds one task, with status
    archived, and the four columns together hold no card. *)
Lemma unknown_status_in_no_column :
  let t := {| task_id := "T3"; task_title := "Old"; task_description := None;
              task_status := "archived" |} in
  let w := queryResolved ["tasks"; "P1"] [t] Scenario.unloaded in
  tasks "P1" w = [t] ∧ mjoin ((render "P1" w).*2) = [].
Proof. vm_compute. done. Qed.

(** With [apiCall] bound to the helper: T1 is dragged to in_progress. Until
    the refetch resolves the board shows it under todo; the write succeeds, the key is invalidated, the refetch
    returns the server's list and the board shows T1 under in_progress. *)
Example drag_then_refetch :
  let w1 := Scenario.board_onDragEnd (Scenario.drop "T1" "in_progress")
              Scenario.loaded in
  let w2 := settle Scenario.board_updateTask 0 Resolved w1 in
  let T1' := {| task_id := "T1"; task_title := "Write report";
                task_description := None; task_status := "in_progress" |} in
  let w3 := queryResolved ["tasks"; "P1"] [T1'; Scenario.T2]
              (fetchQuery (tasksQueryFn Scenario.backend Scenario.alice "P1")
                 w2) in
  (render "P1" w1).*2 = [[]; [Scenario.T1]; []; [Scenario.T2]]
  ∧ (render "P1" w2).*2 = [[]; [Scenario.T1]; []; [Scenario.T2]]
  ∧ (isInvalidated <$> queries w2 !! ["tasks"; "P1"]) = Some true
  ∧ (render "P1" w3).*2 = [[]; []; [T1']; [Scenario.T2]]
  ∧ url <$> writes (trace w3) = ["http://localhost:8001/api/tasks/T1"]
  ∧ useMutation_status w3 = Success.
Proof. vm_compute. done. Qed.


(** * Further properties of App.js *)

(** ** The request the API helper builds *)

(** Where each header of a request comes from. *)
Lemma headers_lookup
    (BACKEND_URL : string) (user : option User) (endpoint : string)
    (options : Options) (k : string) :
  headers (createApiCall BACKEND_URL user endpoint options) !! k
  = match opt_headers options ≫= (.!! k) with
    | Some v => Some v
    | None =>
        if decide (k = "Authorization") then
          match user with
          | Some u => if decide (token u = "") then None
                      else Some ("Bearer " +:+ token u)
          | None => None
          end
        else if decide (k = "Content-Type") then Some "application/json"
        else None
    end.
Proof.
  cbn [createApiCall headers]. rewrite !lookup_union.
  destruct (opt_headers options) as [hs|]; cbn.
  - destruct (hs !! k) as [v|] eqn:Hk; cbn.
    + by destruct (authHeader user !! k),
        (({["Content-Type" := "application/json"]} : JsObject) !! k).
    + unfold authHeader.
      destruct user as [u|]; [destruct (decide (token u = ""))|];
        repeat case_decide; simplify_map_eq; done.
  - rewrite lookup_empty. cbn. unfold authHeader.
    destruct user as [u|]; [destruct (decide (token u = ""))|];
      repeat case_decide; simplify_map_eq; done.
Qed.

(** X1. Every header of the request comes from one of three places, in this
    order of precedence: what the caller passed in [options.headers]; for
    [Authorization], the bearer token of a signed-in user whose token is not
    empty; for [Content-Type], [application/json]. There is no other
    header. *)
Theorem createApiCall_headers
    (BACKEND_URL : string) (user : option User) (endpoint : string)
    (options : Options) (k : string) :
  headers (createApiCall BACKEND_URL user endpoint options) !! k
  = match opt_headers options ≫= (.!! k) with
    | Some v => Some v
    | None =>
        if decide (k = "Authorization") then
          match user with
          | Some u => if decide (token u = "") then None
                      else Some ("Bearer " +:+ token u)
          | None => None
          end
        else if decide (k = "Content-Type") then Some "application/json"
        else None
    end.
Proof. apply headers_lookup. Qed.

(** ** What the board shows *)

(** X2. For any cached task list, the cards of the four rendered columns
    taken together are the tasks whose status is one of the four column
    ids: a task with any other status is on no column, and the board never
    shows more cards than the list has tasks. *)
Theorem render_shows_known_statuses (projectId : string) (w : World) :
  mjoin ((render projectId w).*2)
    ≡ₚ filter (λ t, task_status t ∈ columns.*1) (tasks projectId w)
  ∧ length (mjoin ((render projectId w).*2)) ≤ length (tasks projectId w)
  ∧ (∀ t, task_status t ∉ columns.*1 →
       t ∉ mjoin ((render projectId w).*2)).
Proof.
  assert (H : mjoin ((render projectId w).*2)
              ≡ₚ filter (λ t, task_status t ∈ columns.*1) (tasks projectId w)).
  { cbn. rewrite app_nil_r. unfold getTasksByStatus.
    apply four_filters_known. }
  split; [done|]. split.
  - rewrite H. apply length_filter.
  - intros t Ht. rewrite H. rewrite list_elem_of_filter. tauto.
Qed.

(** ** Runs of the board *)

Section BoardRunFacts.
Variable BACKEND_URL : string.
Variable user : option User.
Variable projectId : string.

Local Abbreviation step' := (board_step BACKEND_URL user projectId).
Local Abbreviation steps' := (board_steps BACKEND_URL user projectId).

Lemma board_steps_cons (e : BoardEvent) (es : list BoardEvent) (w : World) :
  steps' (e :: es) w = steps' es (step' e w).
Proof. done. Qed.

(** Only a resolved fetch replaces cached data. *)
Lemma board_step_data (e : BoardEvent) (k : QueryKey) (w : World) :
  (∀ ts, e ≠ TasksFetched ts) →
  useQuery_data k (step' e w) = useQuery_data k w.
Proof.
  intros He. destruct e as [r|id out| |ts]; cbn [board_step].
  - unfold useQuery_data. by rewrite onDragEnd_queries.
  - apply settle_updateTask_data.
  - done.
  - by destruct (He ts).
Qed.

(** What one event appends to the trace: the invalidations among it are
    one per reported success, each of the board's own key. *)
Lemma board_step_trace (e : BoardEvent) (w : World) :
  ∃ ext, trace (step' e w) = trace w ++ ext
         ∧ invalidations ext = (λ _, tasksKey projectId) <$> successes ext.
Proof.
  destruct e as [[tid [dest|]]|id out| |ts]; cbn [board_step].
  - rewrite onDragEnd_drop. cbn [trace]. by eexists.
  - exists []. by rewrite app_nil_r.
  - unfold settle.
    destruct (mutations w !! id) as [[vars []]|];
      try (exists []; by rewrite app_nil_r).
    destruct out as [|err]; cbn.
    + exists [EvSettled id Resolved; EvInvalidate (tasksKey projectId)].
      by rewrite <-app_assoc.
    + by exists [EvSettled id (Rejected err)].
  - by eexists.
  - exists []. by rewrite app_nil_r.
Qed.

(** One event keeps the mutation cache in step with the writes issued: ids
    stay fresh and there is one mutation record per write. *)
Lemma board_step_records (e : BoardEvent) (w : World) :
  ids_fresh w →
  size (mutations w) = length (writes (trace w)) →
  ids_fresh (step' e w)
  ∧ size (mutations (step' e w)) = length (writes (trace (step' e w))).
Proof.
  intros Hf Hs.
  destruct e as [[tid [dest|]]|id out| |ts]; cbn [board_step]; try done.
  - split.
    + rewrite onDragEnd_drop. unfold ids_fresh. cbn [mutations nextId].
      intros id. rewrite lookup_insert. case_decide; [intros _; lia|].
      intros H'. apply Hf in H'. lia.
    + rewrite onDragEnd_writes, length_app, onDragEnd_drop.
      cbn [mutations length].
      rewrite map_size_insert_None; [rewrite Hs; lia|].
      destruct (mutations w !! nextId w) eqn:E; [|done].
      assert (nextId w < nextId w) by (apply Hf; eauto). lia.
  - unfold settle.
    destruct (mutations w !! id) as [[vars []]|] eqn:E; try done.
    assert (Hm : ∀ m' : Mutation,
              size (<[id := m']> (mutations w)) = size (mutations w)).
    { intros m'. by eapply map_size_insert_Some. }
    destruct out as [|err]; unfold ids_fresh; cbn; (split;
      [ intros id'; rewrite lookup_insert; case_decide;
        [ subst; intros _; apply Hf; eauto | apply Hf ]
      | rewrite Hm, Hs, !writes_app; cbn; by rewrite ?app_nil_r ]).
  - split; [done|]. cbn. rewrite writes_app. cbn. by rewrite app_nil_r.
Qed.

End BoardRunFacts.

(** X3. Whatever sequence of drops, write settlements (with any outcome,
    for any id) and fetch starts a board goes through, as long as no fetch
    resolves the cached data of every query is what it was, and so the
    board renders exactly what it rendered before: the board itself never
    edits the cache. *)
Theorem board_never_edits_cache
    (BACKEND_URL : string) (user : option User) (projectId : string)
    (es : list BoardEvent) (w : World) :
  Forall (λ e, ∀ ts, e ≠ TasksFetched ts) es →
  (∀ k, useQuery_data k (board_steps BACKEND_URL user projectId es w)
        = useQuery_data k w)
  ∧ render projectId (board_steps BACKEND_URL user projectId es w)
    = render projectId w.
Proof.
  intros Hes.
  assert (H : ∀ k, useQuery_data k
                     (board_steps BACKEND_URL user projectId es w)
                   = useQuery_data k w).
  { intros k. revert w.
    induction Hes as [|e es He _ IH]; intros w; [done|].
    rewrite board_steps_cons, IH. by apply board_step_data. }
  split; [done|].
  unfold render, getTasksByStatus, tasks. by rewrite H.
Qed.

Lemma board_never_edits_cache_witness :
  render "P1"
    (board_steps Scenario.backend Scenario.alice "P1"
       [Dropped (Scenario.drop "T1" "done"); FetchStarted;
        Dropped (Scenario.drop "T2" "todo"); WriteSettled 1 (Rejected "500");
        WriteSettled 0 Resolved]
       Scenario.loaded)
  = render "P1" Scenario.loaded.
Proof.
  refine (proj2 (board_never_edits_cache Scenario.backend Scenario.alice "P1"
                   _ Scenario.loaded _)).
  repeat constructor; discriminate.
Defined.

(** X4. Over any run of a board, the invalidations it adds to the trace are
    one for each write that is reported to have succeeded, every one of
    them of the key [['tasks', projectId]]: a failed write, a drop, a fetch
    never invalidates, and no other key is ever invalidated. *)
Theorem board_invalidates_once_per_success
    (BACKEND_URL : string) (user : option User) (projectId : string)
    (es : list BoardEvent) (w : World) :
  ∃ ext,
    trace (board_steps BACKEND_URL user projectId es w) = trace w ++ ext
    ∧ invalidations ext = (λ _, ["tasks"; projectId]) <$> successes ext.
Proof.
  revert w. induction es as [|e es IH]; intros w.
  - exists []. by rewrite app_nil_r.
  - rewrite board_steps_cons.
    destruct (board_step_trace BACKEND_URL user projectId e w)
      as (ext1 & Ht1 & Hi1).
    destruct (IH (board_step BACKEND_URL user projectId e w))
      as (ext2 & Ht2 & Hi2).
    exists (ext1 ++ ext2). split.
    + by rewrite Ht2, Ht1, app_assoc.
    + unfold successes in *. rewrite invalidations_app, omap_app, fmap_app.
      by rewrite Hi1, Hi2.
Qed.

(** Over any run of a board that starts with fresh mutation ids and one
    mutation record per write, both still hold at the end: every drop with
    a destination gets a mutation id of its own, so no record of an earlier
    drop is overwritten. *)
Lemma board_one_record_per_write
    (BACKEND_URL : string) (user : option User) (projectId : string)
    (es : list BoardEvent) (w : World) :
  ids_fresh w →
  size (mutations w) = length (writes (trace w)) →
  ids_fresh (board_steps BACKEND_URL user projectId es w)
  ∧ size (mutations (board_steps BACKEND_URL user projectId es w))
    = length (writes (trace (board_steps BACKEND_URL user projectId es w))).
Proof.
  revert w. induction es as [|e es IH]; intros w Hf Hs; [done|].
  rewrite board_steps_cons.
  destruct (board_step_records BACKEND_URL user projectId e w Hf Hs).
  by apply IH.
Qed.

Lemma board_one_record_per_write_witness :
  size (mutations
          (board_steps Scenario.backend Scenario.alice "P1"
             [Dropped (Scenario.drop "T1" "done"); FetchStarted;
              Dropped (Scenario.cancelled "T2");
              Dropped (Scenario.drop "T2" "todo"); WriteSettled 0 Resolved]
             Scenario.loaded))
  = length (writes (trace
          (board_steps Scenario.backend Scenario.alice "P1"
             [Dropped (Scenario.drop "T1" "done"); FetchStarted;
              Dropped (Scenario.cancelled "T2");
              Dropped (Scenario.drop "T2" "todo"); WriteSettled 0 Resolved]
             Scenario.loaded))).
Proof.
  refine (proj2 (board_one_record_per_write Scenario.backend Scenario.alice
                   "P1" _ Scenario.loaded _ _)).
  - intros id [m Hm]. vm_compute in Hm. discriminate.
  - vm_compute. reflexivity.
Defined.

(** The result of a write is handled once: when mutation [id] has been
    settled, a second settlement for the same id, with whatever outcome,
    changes nothing. *)
Lemma settle_updateTask_twice
    (BACKEND_URL : string) (user : option User) (projectId : string)
    (id : nat) (out1 out2 : Outcome) (w : World) :
  settle (updateTask BACKEND_URL user projectId) id out2
    (settle (updateTask BACKEND_URL user projectId) id out1 w)
  = settle (updateTask BACKEND_URL user projectId) id out1 w.
Proof.
  set (w1 := settle (updateTask BACKEND_URL user projectId) id out1 w).
  assert (H : ∀ vars, mutations w1 !! id
                      ≠ Some {| variables := vars; status := Pending |}).
  { intros vars. unfold w1, settle.
    destruct (mutations w !! id) as [[vars' []]|] eqn:E;
      rewrite ?E; try done.
    destruct out1 as [|err]; cbn; by rewrite lookup_insert_eq. }
  unfold settle.
  destruct (mutations w1 !! id) as [[vars []]|] eqn:E; try done.
  by destruct (H vars).
Qed.

(** One event adds the write it asks for, and no other. *)
Lemma board_step_writes
    (BACKEND_URL : string) (user : option User) (projectId : string)
    (e : BoardEvent) (w : World) :
  writes (trace (board_step BACKEND_URL user projectId e w))
  = writes (trace w) ++ option_list (write_of BACKEND_URL user e).
Proof.
  destruct e as [[tid [dest|]]|id out| |ts]; cbn [board_step write_of].
  - apply onDragEnd_writes.
  - cbn. by rewrite app_nil_r.
  - unfold settle.
    destruct (mutations w !! id) as [[vars []]|];
      try (cbn; by rewrite app_nil_r).
    destruct out; cbn; rewrite !writes_app; cbn; by rewrite !app_nil_r.
  - cbn. rewrite writes_app. cbn. by rewrite decide_True.
  - cbn. by rewrite app_nil_r.
Qed.

(** With [apiCall] bound to the helper, over any run of a board the writes
    issued are, in the order of the drops, one PUT for each drop that had a
    destination; cancelled drags, settlements and fetches add no write. *)
Lemma board_writes_follow_drops
    (BACKEND_URL : string) (user : option User) (projectId : string)
    (es : list BoardEvent) (w : World) :
  writes (trace (board_steps BACKEND_URL user projectId es w))
  = writes (trace w) ++ omap (write_of BACKEND_URL user) es.
Proof.
  revert w. induction es as [|e es IH]; intros w.
  - cbn. by rewrite app_nil_r.
  - rewrite board_steps_cons, IH, board_step_writes, <-app_assoc.
    f_equal. cbn [omap list_omap]. by destruct (write_of BACKEND_URL user e).
Qed.

(** ** Runs of the board as App.js is written *)

(** Rejections are neither writes nor invalidations. *)
Lemma rejections_only (ext : list Event) :
  Forall (λ e, ∃ id, e = EvSettled id (Rejected apiCall_is_not_defined)) ext →
  writes ext = [] ∧ invalidations ext = [].
Proof.
  induction 1 as [|e ext [id ->] _ [IH1 IH2]]; [done|].
  split; [exact IH1|exact IH2].
Qed.

(** What a sequence of drags adds to the trace as App.js is written: one
    rejection for each drop that had a destination. *)
Lemma drops_as_written_trace
    (BACKEND_URL : string) (user : option User) (projectId : string)
    (rs : list DropResult) :
  ∀ w,
    let w' := foldl (λ w r,
                 onDragEnd_as_written BACKEND_URL user projectId r w) w rs in
    (∃ ext,
       trace w' = trace w ++ ext
       ∧ Forall (λ e, ∃ id, e = EvSettled id (Rejected apiCall_is_not_defined))
           ext
       ∧ length ext = length (filter (λ r, is_Some (destination r)) rs))
    ∧ queries w' = queries w.
Proof.
  induction rs as [|[tid [dest|]] rs IH]; intros w; cbn [foldl].
  - split; [|done]. exists []. rewrite app_nil_r. repeat split; constructor.
  - set (w1 := onDragEnd_as_written BACKEND_URL user projectId
                 {| draggableId := tid; destination := Some dest |} w).
    assert (Hw1 : trace w1
                  = trace w ++
                      [EvSettled (nextId w) (Rejected apiCall_is_not_defined)]
                  ∧ queries w1 = queries w).
    { unfold w1. by rewrite onDragEnd_as_written_drop. }
    destruct Hw1 as [Ht1 Hq1].
    destruct (IH w1) as [(ext & Ht & Hf & Hl) Hq].
    split; [|by rewrite Hq].
    exists (EvSettled (nextId w) (Rejected apiCall_is_not_defined) :: ext).
    split; [by rewrite Ht, Ht1, <-app_assoc|].
    split; [constructor; eauto|].
    rewrite filter_cons_True by (cbn; eauto). cbn. by rewrite Hl.
  - destruct (IH w) as [(ext & Ht & Hf & Hl) Hq].
    split; [|done]. exists ext. split; [done|]. split; [done|].
    rewrite filter_cons_False; [done|]. cbn. by intros [? ?].
Qed.

(** X5. As App.js is written, whatever sequence of drags ends on a board,
    no request is ever sent: the trace gains one rejection with the
    ReferenceError for each drop that had a destination and nothing else,
    so the writes and the invalidations are what they were, and every
    query is as it was. *)
Theorem drops_as_written_send_nothing
    (BACKEND_URL : string) (user : option User) (projectId : string)
    (rs : list DropResult) (w : World) :
  let w' := foldl (λ w r,
               onDragEnd_as_written BACKEND_URL user projectId r w) w rs in
  (∃ ext,
     trace w' = trace w ++ ext
     ∧ Forall (λ e, ∃ id, e = EvSettled id (Rejected apiCall_is_not_defined))
         ext
     ∧ length ext = length (filter (λ r, is_Some (destination r)) rs))
  ∧ writes (trace w') = writes (trace w)
  ∧ invalidations (trace w') = invalidations (trace w)
  ∧ queries w' = queries w.
Proof.
  intros w'.
  destruct (drops_as_written_trace BACKEND_URL user projectId rs w)
    as [(ext & Ht & Hf & Hl) Hq].
  fold w' in Ht, Hq.
  destruct (rejections_only ext Hf) as [Hw Hi].
  split; [by exists ext|].
  rewrite Ht, writes_app, invalidations_app, Hw, Hi, !app_nil_r. done.
Qed.

(** ** The Pomodoro timer *)

Section PomodoroFacts.
Import Pomodoro.

Lemma string_app_inj (a a' b b' : string) :
  String.length a = String.length a' →
  a +:+ b = a' +:+ b' → a = a' ∧ b = b'.
Proof.
  revert a'. induction a as [|c a IH]; intros [|c' a'] Hlen Heq;
    try discriminate; [done|].
  cbn in Heq. injection Heq as -> Heq. injection Hlen as Hlen.
  destruct (IH a' Hlen Heq) as [-> ->]. done.
Qed.

(** Below one hundred, a padded number has two characters, and no two
    numbers give the same two characters. *)
Lemma pad2_table :
  Forall (λ n : Z, String.length (padStart 2 "0" (pretty n)) = 2)
    (seqZ 0 100)
  ∧ NoDup ((λ n : Z, padStart 2 "0" (pretty n)) <$> seqZ 0 100).
Proof. split; apply (bool_decide_unpack _); vm_compute; exact I. Qed.

Lemma pad2_length (n : Z) :
  (0 ≤ n < 100)%Z → String.length (padStart 2 "0" (pretty n)) = 2.
Proof.
  intros Hn. destruct pad2_table as [H _].
  eapply Forall_forall in H; [exact H|]. apply elem_of_seqZ. lia.
Qed.

Lemma pad2_inj (n m : Z) :
  (0 ≤ n < 100)%Z → (0 ≤ m < 100)%Z →
  padStart 2 "0" (pretty n) = padStart 2 "0" (pretty m) → n = m.
Proof.
  intros Hn Hm Heq. destruct pad2_table as [_ H].
  assert (Hi : Z.to_nat n = Z.to_nat m); [|lia].
  eapply NoDup_alt; [exact H| |];
    rewrite list_lookup_fmap, lookup_seqZ_lt by lia; cbn;
    rewrite Z.add_0_l, Z2Nat.id by lia; [reflexivity|by rewrite Heq].
Qed.

(** X7. For a time of less than one hundred minutes (and not negative),
    [formatTime] shows two characters for the minutes, a colon and two
    characters for the seconds, and two different times are never shown
    alike. *)
Theorem formatTime_two_digits (s : Z) :
  (0 ≤ s < 6000)%Z →
  (∃ mm ss, formatTime s = mm +:+ ":" +:+ ss
            ∧ String.length mm = 2 ∧ String.length ss = 2)
  ∧ (∀ s', (0 ≤ s' < 6000)%Z → formatTime s' = formatTime s → s' = s).
Proof.
  intros Hs.
  assert (Hrange : ∀ x, (0 ≤ x < 6000)%Z →
            (0 ≤ x `div` 60 < 100)%Z ∧ (0 ≤ x `rem` 60 < 100)%Z
            ∧ (x = 60 * (x `div` 60) + x `rem` 60)%Z).
  { intros x Hx. rewrite Z.rem_mod_nonneg by lia.
    pose proof (Z.div_mod x 60). pose proof (Z.mod_pos_bound x 60).
    assert (x `div` 60 < 100)%Z by (apply Z.div_lt_upper_bound; lia).
    assert (0 ≤ x `div` 60)%Z by (apply Z.div_pos; lia). lia. }
  split.
  - destruct (Hrange s Hs) as (Hm & Hr & _).
    eexists _, _. split; [reflexivity|].
    split; by apply pad2_length.
  - intros s' Hs' Heq. unfold formatTime in Heq. cbn zeta in Heq.
    destruct (Hrange s Hs) as (Hm & Hr & Hd).
    destruct (Hrange s' Hs') as (Hm' & Hr' & Hd').
    apply string_app_inj in Heq as [Hmm Hss];
      [|by rewrite !pad2_length].
    cbn in Hss. injection Hss as Hss.
    apply pad2_inj in Hmm; [|done..]. apply pad2_inj in Hss; [|done..].
    lia.
Qed.

Lemma formatTime_two_digits_witness :
  ∃ mm ss, formatTime 1500 = mm +:+ ":" +:+ ss
           ∧ String.length mm = 2 ∧ String.length ss = 2.
Proof.
  refine (proj1 (formatTime_two_digits 1500 _)). lia.
Defined.

(** One action keeps the time left within the phase. *)
Lemma step_in_range (a : Action) (s : Timer) :
  (1 ≤ timeLeft s ≤ phase_length s)%Z →
  (1 ≤ timeLeft (step a s) ≤ phase_length (step a s))%Z.
Proof.
  destruct s as [t [] []], a; intros H; timer_crush.
Qed.

Lemma steps_snoc (l : list Action) (a : Action) (s : Timer) :
  steps (l ++ [a]) s = step a (steps l s).
Proof. unfold steps. by rewrite foldl_app. Qed.

(** X8. Whatever is clicked and however often the interval fires, once the
    effect has run the time left is at least one second and at most the
    length of the phase the timer is in (1500 seconds of focus, 300 of
    break): it never goes negative and never rests at zero. *)
Theorem timer_time_in_range (l : list Action) :
  (1 ≤ timeLeft (steps l initial) ≤ phase_length (steps l initial))%Z.
Proof.
  induction l as [|a l IH] using rev_ind.
  - cbn. lia.
  - rewrite steps_snoc. by apply step_in_range.
Qed.

(** A running timer counts down one second per firing while time is left
    after it. *)
Lemma countdown (n : nat) :
  ∀ s, isRunning s = true → (Z.of_nat n < timeLeft s)%Z →
       steps (replicate n IntervalFires) s
       = {| timeLeft := timeLeft s - Z.of_nat n; isRunning := true;
            isBreak := isBreak s |}.
Proof.
  induction n as [|n IH]; intros [t r b] Hr Ht; cbn in Hr, Ht; subst r.
  - cbn. f_equal. lia.
  - rewrite replicate_S_end, steps_snoc, IH by (cbn; done || lia).
    timer_crush.
Qed.

(** X9. A running timer with [n] seconds left, [n] at least one, shows
    [n - k] seconds after the interval fired [k] times, [k] below [n], still
    running in the same phase; after the [n]-th firing the phase is over,
    and the timer is exactly where a click on Skip would have put it:
    stopped, in the other phase, with that phase's full length. *)
Theorem timer_runs_out (s : Timer) (k : nat) :
  isRunning s = true →
  (Z.of_nat k < timeLeft s)%Z →
  steps (replicate k IntervalFires) s
    = {| timeLeft := timeLeft s - Z.of_nat k; isRunning := true;
         isBreak := isBreak s |}
  ∧ steps (replicate (Z.to_nat (timeLeft s)) IntervalFires) s
    = handle ClickSkip s.
Proof.
  intros Hr Hk. split; [by apply countdown|].
  destruct (Z.to_nat (timeLeft s)) as [|n] eqn:En; [lia|].
  rewrite replicate_S_end, steps_snoc, countdown by (done || lia).
  destruct s as [t r b]. cbn in *. subst r.
  assert (t - Z.of_nat n = 1)%Z as -> by lia.
  destruct b; timer_crush.
Qed.

Lemma timer_runs_out_witness :
  steps (replicate (Z.to_nat 1500) IntervalFires)
    {| timeLeft := 1500; isRunning := true; isBreak := false |}
  = {| timeLeft := 300; isRunning := false; isBreak := true |}.
Proof.
  refine (proj2 (timer_runs_out
    {| timeLeft := 1500; isRunning := true; isBreak := false |} 10 _ _)).
  - reflexivity.
  - cbn. lia.
Defined.

(** X10. Two clicks on Skip are one click on Reset: the timer is back in
    the phase it was in, stopped, with that phase's full length. *)
Theorem skip_twice_is_reset (s : Timer) :
  step ClickSkip (step ClickSkip s) = step ClickReset s.
Proof. destruct s as [t r []]; timer_crush. Qed.

(** X6. A paused timer keeps its time: with the timer stopped and time
    left, the interval is not set, and however often its callback is taken
    to fire nothing changes; pausing a running timer and starting it again
    leaves the time left as it was. *)
Theorem pause_freezes (s : Timer) (n : nat) :
  isRunning s = false →
  (1 ≤ timeLeft s)%Z →
  steps (replicate n IntervalFires) s = s
  ∧ timeLeft (step ClickStartPause (step ClickStartPause s)) = timeLeft s
  ∧ isRunning (step ClickStartPause s) = true.
Proof.
  intros Hr Ht. split.
  - induction n as [|n IH]; [done|].
    rewrite replicate_S_end, steps_snoc, IH.
    destruct s as [t r b]. cbn in Hr, Ht. subst r. timer_crush.
  - destruct s as [t r b]. cbn in Hr, Ht. subst r. split; timer_crush.
Qed.

Lemma pause_freezes_witness :
  steps (replicate 30 IntervalFires)
    {| timeLeft := 1200; isRunning := false; isBreak := false |}
  = {| timeLeft := 1200; isRunning := false; isBreak := false |}.
Proof.
  refine (proj1 (pause_freezes
    {| timeLeft := 1200; isRunning := false; isBreak := false |} 30 _ _)).
  - reflexivity.
  - cbn. lia.
Defined.

End PomodoroFacts.

(** ** The session *)

Section AuthFacts.
Import Auth.

Lemma split_first_no_sep (sep : ascii) (s a b : string) :
  split_first sep s ≠ a +:+ String sep b.
Proof.
  revert a. induction s as [|c s IH]; intros a; cbn.
  - by destruct a.
  - case_decide; [by destruct a|].
    destruct a as [|c' a]; cbn; [intros [= ? _]; congruence|].
    intros [= -> Heq]. by apply (IH a).
Qed.

Lemma split_first_prefix (sep : ascii) (s : string) :
  ∃ rest, s = split_first sep s +:+ rest
          ∧ (rest = "" ∨ ∃ r, rest = String sep r).
Proof.
  induction s as [|c s (rest & IH & Hrest)]; cbn.
  - exists "". eauto.
  - case_decide; [subst; cbn; eauto|].
    exists rest. split; [|done]. rewrite IH at 1. reflexivity.
Qed.

(** X11. The display name of the mock user is the part of the email before
    its first [@]: the email is the display name followed by nothing or by
    an [@] and the rest, and the display name holds no [@]. *)
Theorem mockUser_displayName (email_ : string) (now1 now2 : N) :
  let u := mockUser email_ now1 now2 in
  email u = email_
  ∧ (∃ rest, email_ = displayName u +:+ rest
             ∧ (rest = "" ∨ ∃ r, rest = String "@" r))
  ∧ (∀ a b, displayName u ≠ a +:+ String "@" b).
Proof.
  cbn. split; [done|]. split.
  - apply split_first_prefix.
  - intros a b. apply split_first_no_sep.
Qed.










(** X14. After a login, every API call that brings no [Authorization]
    header of its own carries [Bearer mock_user_<time>], the time being the
    second clock reading of the login; after the logout that follows it
    carries none. The password plays no part. *)
Theorem login_sets_bearer_token
    (BACKEND_URL endpoint email_ password : string) (now1 now2 : N)
    (options : Options) (s : Session) :
  opt_headers options ≫= (.!! "Authorization") = None →
  let s1 := (login email_ password now1 now2 s).1 in
  headers (createApiCall BACKEND_URL (user s1) endpoint options)
    !! "Authorization"
  = Some ("Bearer mock_user_" +:+ pretty now2)
  ∧ headers (createApiCall BACKEND_URL (user (logout s1)) endpoint options)
      !! "Authorization"
    = None.
Proof.
  intros Hopt s1. rewrite !headers_lookup, Hopt. cbn. done.
Qed.

Lemma login_sets_bearer_token_witness :
  headers (createApiCall Scenario.backend
             (user (login "alice@example.com" "secret" 1700000000000
                      1700000000001 (mount (start ∅))).1)
             "/projects"
             {| opt_method := None; opt_data := None; opt_headers := None |})
    !! "Authorization"
  = Some ("Bearer mock_user_" +:+ pretty 1700000000001%N).
Proof.
  refine (proj1 (login_sets_bearer_token Scenario.backend "/projects"
                   "alice@example.com" "secret" 1700000000000 1700000000001
                   {| opt_method := None; opt_data := None;
                      opt_headers := None |}
                   (mount (start ∅)) _)).
  reflexivity.
Defined.

End AuthFacts.

(** ** The forms of the work and study pages *)

(** A one-element filter matches the keys that start with that element. *)
Lemma prefix_single (a : string) (k : QueryKey) :
  [a] `prefix_of` k ↔ ∃ rest, k = a :: rest.
Proof.
  split.
  - intros [rest ->]. by exists rest.
  - intros [rest ->]. by exists rest.
Qed.

Section FormFacts.
Variable BACKEND_URL : string.
Variable user : option User.

(** The mutation a submit creates is pending under the id [nextId]. *)
Lemma page_mutate_pending {C : Type} (o : PageMutationOptions C)
    (vars : JsObject) (p : Page C) :
  pm_onMutate o = None →
  mutations (world (page_mutate o vars p)) !! nextId (world p)
  = Some {| variables := vars; status := Pending |}
  ∧ local (page_mutate o vars p) = local p
  ∧ queries (world (page_mutate o vars p)) = queries (world p)
  ∧ trace (world (page_mutate o vars p))
    = trace (world p) ++ [EvRequest (pm_mutationFn o vars)].
Proof.
  intros Hm. unfold page_mutate. rewrite Hm. cbn.
  by rewrite lookup_insert_eq.
Qed.

(** A rejected write with no [onError] and no [onSettled] changes the
    mutation's status and nothing else. *)
Lemma page_settle_rejected {C : Type} (o : PageMutationOptions C) (id : nat)
    (vars : JsObject) (err : string) (p : Page C) :
  pm_onError o = None → pm_onSettled o = None →
  mutations (world p) !! id = Some {| variables := vars; status := Pending |} →
  page_settle o id (Rejected err) p
  = on_world
      (λ w, set_mutations
              <[id := {| variables := vars; status := Error err |}]>
              (emit (EvSettled id (Rejected err)) w)) p.
Proof.
  intros He Hs Hp. unfold page_settle. rewrite Hp, He, Hs. reflexivity.
Qed.

(** X15. When the write of a task submitted in the view of project
    [selected] succeeds, the query [['tasks', selected.id]], the one the
    board of that project reads, is marked invalidated, and the task list
    of no other project and no one-element key is; the cached list itself
    is as before, so the board shows the new task only after a refetch; the
    two task fields are emptied and the task form is hidden, the project
    form is left alone. *)
Theorem createTask_invalidates_board
    (selected : Project) (p : Page WorkState) :
  let p1 := handleTaskSubmit BACKEND_URL user selected p in
  let p2 := page_settle (createTask BACKEND_URL user selected)
              (nextId (world p)) Resolved p1 in
  queries (world p2) !! tasksKey (project_id selected)
    = mark_invalidated <$> queries (world p) !! tasksKey (project_id selected)
  ∧ (∀ q, q ≠ project_id selected →
       queries (world p2) !! ["tasks"; q] = queries (world p) !! ["tasks"; q])
  ∧ (∀ name, queries (world p2) !! [name] = queries (world p) !! [name])
  ∧ render (project_id selected) (world p2)
    = render (project_id selected) (world p)
  ∧ local p2
    = {| selectedProject := selectedProject (local p);
         showProjectForm := showProjectForm (local p);
         showTaskForm := false;
         projectTitle := projectTitle (local p);
         projectDescription := projectDescription (local p);
         taskTitle := "";
         taskDescription := "" |}.
Proof.
  intros p1 p2.
  destruct (page_mutate_pending (createTask BACKEND_URL user selected)
              (<["title" := taskTitle (local p)]>
                 {[ "description" := taskDescription (local p) ]}) p eq_refl)
    as (Hpend & Hloc & Hq & Htr).
  fold (handleTaskSubmit BACKEND_URL user selected p) in Hpend, Hloc, Hq, Htr.
  fold p1 in Hpend, Hloc, Hq, Htr.
  assert (Hk : ∀ k, queries (world p2) !! k
                 = (λ q, if bool_decide
                              (tasksKey (project_id selected) `prefix_of` k)
                         then mark_invalidated q else q)
                     <$> queries (world p) !! k).
  { intros k. unfold p2, page_settle. rewrite Hpend. clearbody p1. cbn.
    rewrite map_lookup_imap, Hq.
    by destruct (queries (world p) !! k). }
  split.
  { rewrite Hk, bool_decide_eq_true_2; [done|]. by apply tasksKey_prefix. }
  split.
  { intros q Hne. rewrite Hk, bool_decide_eq_false_2.
    - by destruct (queries (world p) !! ["tasks"; q]).
    - by rewrite tasksKey_prefix. }
  split.
  { intros name. rewrite Hk, bool_decide_eq_false_2.
    - by destruct (queries (world p) !! [name]).
    - apply tasksKey_not_prefix_single. }
  split.
  { unfold render, getTasksByStatus, tasks, useQuery_data. rewrite Hk.
    destruct (queries (world p) !! tasksKey (project_id selected)); [|done].
    cbn. by case_bool_decide. }
  unfold p2, page_settle. rewrite Hpend. clearbody p1. cbn. by rewrite Hloc.
Qed.

(** X16. When the write of a submitted project or task fails, what was
    typed stays in the form and the form stays open: the page's own state
    is what it was before the submit, no query is marked or changed,
    nothing is invalidated, and the error is the mutation's status. *)
Theorem failed_submit_keeps_form
    (selected : Project) (err : string) (p : Page WorkState) :
  let t2 := page_settle (createTask BACKEND_URL user selected)
              (nextId (world p)) (Rejected err)
              (handleTaskSubmit BACKEND_URL user selected p) in
  let j2 := page_settle (createProject BACKEND_URL user)
              (nextId (world p)) (Rejected err)
              (handleProjectSubmit BACKEND_URL user p) in
  (local t2 = local p
   ∧ queries (world t2) = queries (world p)
   ∧ invalidations (trace (world t2)) = invalidations (trace (world p))
   ∧ useMutation_status (world t2) = Error err)
  ∧ (local j2 = local p
     ∧ queries (world j2) = queries (world p)
     ∧ invalidations (trace (world j2)) = invalidations (trace (world p))
     ∧ useMutation_status (world j2) = Error err).
Proof.
  intros t2 j2. split.
  - destruct (page_mutate_pending (createTask BACKEND_URL user selected)
                (<["title" := taskTitle (local p)]>
                   {[ "description" := taskDescription (local p) ]}) p eq_refl)
      as (Hpend & Hloc & Hq & Htr).
    fold (handleTaskSubmit BACKEND_URL user selected p) in Hpend, Hloc, Hq, Htr.
    unfold t2. erewrite page_settle_rejected by (done || exact Hpend).
    cbn [on_world world local set_mutations emit queries trace].
    rewrite Hloc, Hq, Htr, !invalidations_app. cbn. rewrite !app_nil_r.
    repeat split; try done.
    unfold useMutation_status. cbn. by rewrite lookup_insert_eq.
  - destruct (page_mutate_pending (createProject BACKEND_URL user)
                (<["title" := projectTitle (local p)]>
                   {[ "description" := projectDescription (local p) ]})
                p eq_refl)
      as (Hpend & Hloc & Hq & Htr).
    fold (handleProjectSubmit BACKEND_URL user p) in Hpend, Hloc, Hq, Htr.
    unfold j2. erewrite page_settle_rejected by (done || exact Hpend).
    cbn [on_world world local set_mutations emit queries trace].
    rewrite Hloc, Hq, Htr, !invalidations_app. cbn. rewrite !app_nil_r.
    repeat split; try done.
    unfold useMutation_status. cbn. by rewrite lookup_insert_eq.
Qed.

(** A resolved write whose [onSuccess] invalidates [key] and then sets the
    page's state with [reset]. *)
Lemma page_settle_resolved {C : Type} (o : PageMutationOptions C) (id : nat)
    (vars : JsObject) (key : QueryKey) (reset : C → C) (p : Page C) :
  pm_onSuccess o
    = Some (λ _ p, {| world := invalidateQueries key (world p);
                      local := reset (local p) |}) →
  pm_onSettled o = None →
  mutations (world p) !! id = Some {| variables := vars; status := Pending |} →
  page_settle o id Resolved p
  = {| world := set_mutations
                  <[id := {| variables := vars; status := Success |}]>
                  (invalidateQueries key (emit (EvSettled id Resolved) (world p)));
       local := reset (local p) |}.
Proof.
  intros Ho Hs Hp. unfold page_settle. rewrite Hp, Ho, Hs. reflexivity.
Qed.

(** X17. When the write of a new event succeeds, [['todayEvents']] is the
    one key invalidated: the dashboard's query is marked, the calendar's
    query [['events']] is not, so the calendar keeps its cached events
    unmarked; the event title and time are emptied and the flashcard fields
    are left alone. *)
Theorem createEvent_leaves_calendar
    (id : nat) (vars : JsObject) (p : Page StudyState) :
  mutations (world p) !! id = Some {| variables := vars; status := Pending |} →
  let p2 := page_settle (createEvent BACKEND_URL user) id Resolved p in
  queries (world p2) !! ["todayEvents"]
    = mark_invalidated <$> queries (world p) !! ["todayEvents"]
  ∧ queries (world p2) !! ["events"] = queries (world p) !! ["events"]
  ∧ invalidations (trace (world p2))
    = invalidations (trace (world p)) ++ [["todayEvents"]]
  ∧ local p2
    = {| question := question (local p); answer := answer (local p);
         eventTitle := ""; eventDateTime := "" |}.
Proof.
  intros Hp p2. unfold p2.
  rewrite (page_settle_resolved _ id vars ["todayEvents"]
             (λ c, {| question := question c; answer := answer c;
                      eventTitle := ""; eventDateTime := "" |}))
    by done.
  cbn [world local queries set_mutations].
  rewrite !invalidateQueries_lookup. cbn [queries emit].
  split.
  { rewrite bool_decide_eq_true_2; [done|]. by apply prefix_single; eexists. }
  split.
  { rewrite bool_decide_eq_false_2.
    - by destruct (queries (world p) !! ["events"]).
    - rewrite prefix_single. by intros [rest [=]]. }
  split; [|done].
  cbn. rewrite !invalidations_app. cbn. by rewrite app_nil_r.
Qed.

(** X18. When the write of a submitted flashcard succeeds, the question and
    the answer are emptied, the event fields are left alone,
    [['flashcards']] is invalidated and every query whose key does not
    start with [flashcards] is as it was. *)
Theorem flashcard_submit_then_success (p : Page StudyState) :
  let p1 := handleFlashcardSubmit BACKEND_URL user p in
  let p2 := page_settle (createFlashcard BACKEND_URL user)
              (nextId (world p)) Resolved p1 in
  invalidations (trace (world p2))
    = invalidations (trace (world p)) ++ [["flashcards"]]
  ∧ (∀ name rest, name ≠ "flashcards" →
       queries (world p2) !! (name :: rest)
       = queries (world p) !! (name :: rest))
  ∧ local p2
    = {| question := ""; answer := "";
         eventTitle := eventTitle (local p);
         eventDateTime := eventDateTime (local p) |}.
Proof.
  intros p1 p2.
  destruct (page_mutate_pending (createFlashcard BACKEND_URL user)
              (<["question" := question (local p)]>
                 {[ "answer" := answer (local p) ]}) p eq_refl)
    as (Hpend & Hloc & Hq & Htr).
  fold (handleFlashcardSubmit BACKEND_URL user p) in Hpend, Hloc, Hq, Htr.
  fold p1 in Hpend, Hloc, Hq, Htr.
  unfold p2.
  rewrite (page_settle_resolved (createFlashcard BACKEND_URL user) _ _
             ["flashcards"]
             (λ c, {| question := ""; answer := "";
                      eventTitle := eventTitle c;
                      eventDateTime := eventDateTime c |}) _ eq_refl eq_refl
             Hpend).
  clearbody p1. cbn [world local queries set_mutations].
  split.
  { cbn. rewrite !invalidations_app, Htr, invalidations_app. cbn.
    by rewrite !app_nil_r. }
  split; [|by rewrite Hloc].
  intros name rest Hne. rewrite invalidateQueries_lookup. cbn [queries emit].
  rewrite Hq, bool_decide_eq_false_2.
  - by destruct (queries (world p) !! (name :: rest)).
  - rewrite prefix_single. intros [rest' [= ? _]]. congruence.
Qed.

(** X19. When the write of a new project succeeds, [['projects']] is
    invalidated and no task list is: the project list is marked, the board
    of every project keeps its query unmarked and its cards; the two
    project fields are emptied and the project form is hidden. *)
Theorem createProject_then_success (p : Page WorkState) :
  let p1 := handleProjectSubmit BACKEND_URL user p in
  let p2 := page_settle (createProject BACKEND_URL user)
              (nextId (world p)) Resolved p1 in
  queries (world p2) !! ["projects"]
    = mark_invalidated <$> queries (world p) !! ["projects"]
  ∧ (∀ q, queries (world p2) !! ["tasks"; q]
          = queries (world p) !! ["tasks"; q])
  ∧ (∀ q, render q (world p2) = render q (world p))
  ∧ invalidations (trace (world p2))
    = invalidations (trace (world p)) ++ [["projects"]]
  ∧ local p2
    = {| selectedProject := selectedProject (local p);
         showProjectForm := false;
         showTaskForm := showTaskForm (local p);
         projectTitle := "";
         projectDescription := "";
         taskTitle := taskTitle (local p);
         taskDescription := taskDescription (local p) |}.
Proof.
  intros p1 p2.
  destruct (page_mutate_pending (createProject BACKEND_URL user)
              (<["title" := projectTitle (local p)]>
                 {[ "description" := projectDescription (local p) ]})
              p eq_refl)
    as (Hpend & Hloc & Hq & Htr).
  fold (handleProjectSubmit BACKEND_URL user p) in Hpend, Hloc, Hq, Htr.
  fold p1 in Hpend, Hloc, Hq, Htr.
  unfold p2.
  rewrite (page_settle_resolved (createProject BACKEND_URL user) _ _
             ["projects"]
             (λ c, {| selectedProject := selectedProject c;
                      showProjectForm := false;
                      showTaskForm := showTaskForm c;
                      projectTitle := "";
                      projectDescription := "";
                      taskTitle := taskTitle c;
                      taskDescription := taskDescription c |})
             _ eq_refl eq_refl Hpend).
  clearbody p1. cbn [world local queries set_mutations].
  assert (Ht : ∀ q, queries
                      (invalidateQueries ["projects"]
                         (emit (EvSettled (nextId (world p)) Resolved)
                            (world p1))) !! ["tasks"; q]
                    = queries (world p) !! ["tasks"; q]).
  { intros q. rewrite invalidateQueries_lookup. cbn [queries emit].
    rewrite Hq, bool_decide_eq_false_2.
    - by destruct (queries (world p) !! ["tasks"; q]).
    - rewrite prefix_single. by intros [rest [=]]. }
  split.
  { rewrite invalidateQueries_lookup. cbn [queries emit].
    rewrite Hq, bool_decide_eq_true_2; [done|].
    by apply prefix_single; eexists. }
  split; [done|]. split.
  { intros q. unfold render, getTasksByStatus, tasks, useQuery_data, tasksKey.
    cbn [queries set_mutations]. by rewrite Ht. }
  split; [|by rewrite Hloc].
  cbn. rewrite !invalidations_app, Htr, invalidations_app. cbn.
  by rewrite !app_nil_r.
Qed.

End FormFacts.

Lemma createEvent_leaves_calendar_witness :
  let p2 := page_settle (createEvent Scenario.backend Scenario.alice) 0
              Resolved StudyScenario.submitted in
  queries (world p2) !! ["todayEvents"]
    = mark_invalidated <$> queries (world StudyScenario.submitted)
                             !! ["todayEvents"]
  ∧ queries (world p2) !! ["events"]
    = queries (world StudyScenario.submitted) !! ["events"].
Proof.
  intros p2.
  assert (Hp : mutations (world StudyScenario.submitted) !! 0
               = Some {| variables := StudyScenario.event_body;
                         status := Pending |})
    by (vm_compute; reflexivity).
  destruct (createEvent_leaves_calendar Scenario.backend Scenario.alice 0
              StudyScenario.event_body StudyScenario.submitted Hp)
    as (H1 & H2 & _).
  split; assumption.
Defined.
